(** * terraform-provider-ldap: the [ldap_object] resource

    A shallow embedding of the two versions of [resource_ldap_object.go]:

    - [MapShaped]: [src/provider/resource_ldap_object.go], where the declared
      attributes are a [map[string]string] and a multi-valued attribute is
      stored as a JSON array literal;
    - [SetShaped]: [src/unnamed/part_000], where the declared attributes are a
      [schema.Set] of single-entry maps [{name: value}].

    Go strings are byte strings: they are modelled by [string], one [ascii]
    per byte.  The pieces of the Go standard library, of go-ldap and of the
    Terraform SDK the resource calls are modelled in modules named after
    their packages. *)

From Stdlib Require Import ZArith String Ascii List Bool Lia.
From stdpp Require Import gmap strings list fin_maps sorting pretty.

Local Open Scope string_scope.
Local Open Scope Z_scope.
Local Open Scope list_scope.

(** ** Bytes *)

Definition byte_val (c : ascii) : Z := Z.of_N (N_of_ascii c).
Definition byte_of (z : Z) : ascii := ascii_of_N (Z.to_N (z mod 256)).

Definition between (lo x hi : Z) : bool := (lo <=? x) && (x <=? hi).

(** [s[n:]] *)
Fixpoint drop_bytes (n : nat) (s : string) : string :=
  match n, s with
  | O, _ => s
  | S _, EmptyString => EmptyString
  | S n', String _ t => drop_bytes n' t
  end.

(** [s[:n]] *)
Fixpoint take_bytes (n : nat) (s : string) : string :=
  match n, s with
  | O, _ => EmptyString
  | S _, EmptyString => EmptyString
  | S n', String c t => String c (take_bytes n' t)
  end.

Definition string_of_bytes (l : list Z) : string :=
  fold_right (fun b s => String (byte_of b) s) EmptyString l.

(** ** Package [unicode/utf8] *)

Module utf8.

Definition RuneError : Z := 0xFFFD.
Definition RuneSelf : Z := 0x80.
Definition MaxRune : Z := 0x10FFFF.

(** Continuation bytes are [locb..hicb]. *)
Definition cont (b : Z) : bool := between 0x80 b 0xBF.

(** The table [first] and [acceptRanges] of the package: the length of the
    sequence a leading byte announces, and the range its second byte must
    lie in. [size_of] is [0] for a byte that cannot start a sequence. *)
Definition size_of (b0 : Z) : nat :=
  if b0 <? 0x80 then 1%nat
  else if between 0xC2 b0 0xDF then 2%nat
  else if between 0xE0 b0 0xEF then 3%nat
  else if between 0xF0 b0 0xF4 then 4%nat
  else 0%nat.

Definition accept (b0 b1 : Z) : bool :=
  if b0 =? 0xE0 then between 0xA0 b1 0xBF
  else if b0 =? 0xED then between 0x80 b1 0x9F
  else if b0 =? 0xF0 then between 0x90 b1 0xBF
  else if b0 =? 0xF4 then between 0x80 b1 0x8F
  else cont b1.

(** [DecodeRuneInString]: the first rune of [s] and its width in bytes;
    [(RuneError, 0)] on the empty string, [(RuneError, 1)] on an invalid
    encoding. *)
Definition DecodeRuneInString (s : string) : Z * nat :=
  match s with
  | EmptyString => (RuneError, 0%nat)
  | String c0 t0 =>
    let s0 := byte_val c0 in
    match size_of s0 with
    | 1%nat => (s0, 1%nat)
    | 2%nat =>
      match t0 with
      | String c1 _ =>
        let s1 := byte_val c1 in
        if accept s0 s1
        then (Z.lor (Z.shiftl (Z.land s0 0x1F) 6) (Z.land s1 0x3F), 2%nat)
        else (RuneError, 1%nat)
      | _ => (RuneError, 1%nat)
      end
    | 3%nat =>
      match t0 with
      | String c1 (String c2 _) =>
        let s1 := byte_val c1 in
        let s2 := byte_val c2 in
        if accept s0 s1 && cont s2
        then (Z.lor (Z.shiftl (Z.land s0 0x0F) 12)
                (Z.lor (Z.shiftl (Z.land s1 0x3F) 6) (Z.land s2 0x3F)), 3%nat)
        else (RuneError, 1%nat)
      | _ => (RuneError, 1%nat)
      end
    | 4%nat =>
      match t0 with
      | String c1 (String c2 (String c3 _)) =>
        let s1 := byte_val c1 in
        let s2 := byte_val c2 in
        let s3 := byte_val c3 in
        if accept s0 s1 && cont s2 && cont s3
        then (Z.lor (Z.shiftl (Z.land s0 0x07) 18)
                (Z.lor (Z.shiftl (Z.land s1 0x3F) 12)
                   (Z.lor (Z.shiftl (Z.land s2 0x3F) 6) (Z.land s3 0x3F))), 4%nat)
        else (RuneError, 1%nat)
      | _ => (RuneError, 1%nat)
      end
    | _ => (RuneError, 1%nat)
    end
  end.

Definition surrogate (r : Z) : bool := between 0xD800 r 0xDFFF.

(** [AppendRune]/[EncodeRune]: the UTF-8 encoding of [r]; a rune out of
    range or a surrogate is encoded as [RuneError]. *)
Definition encode3 (r : Z) : list Z :=
  [Z.lor 0xE0 (Z.shiftr r 12);
   Z.lor 0x80 (Z.land (Z.shiftr r 6) 0x3F);
   Z.lor 0x80 (Z.land r 0x3F)].

Definition EncodeRune (r : Z) : string :=
  string_of_bytes
    (if between 0 r 0x7F then [r]
     else if between 0 r 0x7FF then
       [Z.lor 0xC0 (Z.shiftr r 6); Z.lor 0x80 (Z.land r 0x3F)]
     else if (r <? 0) || (MaxRune <? r) || surrogate r then encode3 RuneError
     else if r <=? 0xFFFF then encode3 r
     else
       [Z.lor 0xF0 (Z.shiftr r 18);
        Z.lor 0x80 (Z.land (Z.shiftr r 12) 0x3F);
        Z.lor 0x80 (Z.land (Z.shiftr r 6) 0x3F);
        Z.lor 0x80 (Z.land r 0x3F)]).

(** [RuneStart]: [b] is not a continuation byte. *)
Definition RuneStart (b : Z) : bool := negb (Z.land b 0xC0 =? 0x80).

(** The loop of [DecodeLastRuneInString] that walks back from [start]
    to [lim] looking for the start of the last rune. [n] bounds the number
    of iterations; the result is the final value of [start] (as an offset,
    [-1] when the loop ran below zero). *)
Fixpoint find_start (n : nat) (s : string) (start lim : Z) : Z :=
  match n with
  | O => start
  | S n' =>
    if start <? lim then start
    else
      match String.get (Z.to_nat start) s with
      | Some c => if RuneStart (byte_val c) then start
                  else find_start n' s (start - 1) lim
      | None => start
      end
  end.

(** [DecodeLastRuneInString]: the last rune of [s] and its width. *)
Definition DecodeLastRuneInString (s : string) : Z * nat :=
  let e := Z.of_nat (String.length s) in
  if e =? 0 then (RuneError, 0%nat)
  else
    match String.get (Z.to_nat (e - 1)) s with
    | None => (RuneError, 0%nat)
    | Some c =>
      let r := byte_val c in
      if r <? RuneSelf then (r, 1%nat)
      else
        let lim := Z.max 0 (e - 4) in
        let start := Z.max 0 (find_start 4 s (e - 2) lim) in
        let '(r, size) := DecodeRuneInString (drop_bytes (Z.to_nat start) s) in
        if start + Z.of_nat size =? e then (r, size) else (RuneError, 1%nat)
    end.

End utf8.

(** ** Package [unicode] *)

Module unicode.

Definition ReplacementChar : Z := 0xFFFD.

(** [IsSpace]: the Latin-1 spaces and the table [White_Space]. *)
Definition IsSpace (r : Z) : bool :=
  between 0x09 r 0x0D || (r =? 0x20) || (r =? 0x85) || (r =? 0xA0)
  || (r =? 0x1680) || between 0x2000 r 0x200A || between 0x2028 r 0x2029
  || (r =? 0x202F) || (r =? 0x205F) || (r =? 0x3000).

End unicode.

(** ** Package [strings] *)

Module Strings.

(** [HasPrefix(s, prefix)] *)
Definition HasPrefix (s prefix : string) : bool := String.prefix prefix s.

(** [TrimLeftFunc(s, f)]: [s] without its leading runes that satisfy [f].
    [skip] counts the bytes of the current rune still to be passed. *)
Fixpoint TrimLeftFunc_from (f : Z -> bool) (skip : nat) (s : string) : string :=
  match s with
  | EmptyString => EmptyString
  | String _ t =>
    match skip with
    | S k => TrimLeftFunc_from f k t
    | O =>
      let '(r, size) := utf8.DecodeRuneInString s in
      if f r then TrimLeftFunc_from f (Nat.pred size) t else s
    end
  end.

Definition TrimLeftFunc (s : string) (f : Z -> bool) : string :=
  TrimLeftFunc_from f 0 s.

(** [TrimRightFunc(s, f)]: the loop of [lastIndexFunc] drops the last rune
    while it satisfies [f]; [n] bounds the iterations by the length. *)
Fixpoint TrimRightFunc_upto (f : Z -> bool) (n : nat) (s : string) : string :=
  match n with
  | O => s
  | S n' =>
    match s with
    | EmptyString => EmptyString
    | _ =>
      let '(r, size) := utf8.DecodeLastRuneInString s in
      if f r
      then TrimRightFunc_upto f n' (take_bytes (String.length s - size) s)
      else s
    end
  end.

Definition TrimRightFunc (s : string) (f : Z -> bool) : string :=
  TrimRightFunc_upto f (String.length s) s.

Definition TrimFunc (s : string) (f : Z -> bool) : string :=
  TrimRightFunc (TrimLeftFunc s f) f.

(** [TrimSpace(s)]: the package strips ASCII spaces on a fast path and
    falls back to [TrimFunc(s, unicode.IsSpace)] at the first byte that is
    not ASCII; both compute [TrimFunc s unicode.IsSpace]. *)
Definition TrimSpace (s : string) : string := TrimFunc s unicode.IsSpace.

End Strings.

(** ** Package [unicode/utf16] *)

Module utf16.

Definition IsSurrogate (r : Z) : bool := between 0xD800 r 0xDFFF.

(** [DecodeRune(r1, r2)]: the rune of a surrogate pair, or the replacement
    character when the pair is not valid. *)
Definition DecodeRune (r1 r2 : Z) : Z :=
  if between 0xD800 r1 0xDBFF && between 0xDC00 r2 0xDFFF
  then Z.lor (Z.shiftl (r1 - 0xD800) 10) (r2 - 0xDC00) + 0x10000
  else unicode.ReplacementChar.

(** [EncodeRune(r)]: the surrogate pair of [r]; the replacement character
    twice when [r] needs no pair or is out of range. *)
Definition EncodeRune (r : Z) : Z * Z :=
  if (r <? 0x10000) || (utf8.MaxRune <? r)
  then (unicode.ReplacementChar, unicode.ReplacementChar)
  else
    let r := r - 0x10000 in
    (0xD800 + Z.land (Z.shiftr r 10) 0x3FF, 0xDC00 + Z.land r 0x3FF).

End utf16.

(** ** Package [golang.org/x/text/encoding/unicode]

    The encoder [UTF16(endianness, IgnoreBOM).NewEncoder()]: it writes no
    byte order mark, and its [String] runs [Transform] over the whole
    input. *)

Module encoding_unicode.

Inductive Endianness := BigEndian | LittleEndian.

(** The loop of [utf16Encoder.Transform]: for each rune of the source one
    16-bit unit, or the two units of a surrogate pair, each written high
    byte first.  A byte that starts no valid encoding decodes to
    [utf8.RuneError] with width 1.  [skip] counts the bytes of the current
    rune still to be passed. *)
Fixpoint units_from (skip : nat) (src : string) : string :=
  match src with
  | EmptyString => EmptyString
  | String c t =>
    match skip with
    | S k => units_from k t
    | O =>
      let '(r, size) :=
        if byte_val c <? utf8.RuneSelf then (byte_val c, 1%nat)
        else utf8.DecodeRuneInString src in
      (if r <=? 0xFFFF then string_of_bytes [Z.shiftr r 8; r]
       else
         let '(r1, r2) := utf16.EncodeRune r in
         string_of_bytes [Z.shiftr r1 8; r1; Z.shiftr r2 8; r2])
      +:+ units_from (Nat.pred size) t
    end
  end.

(** The loop that ends [Transform] for [LittleEndian]: it swaps the two
    bytes of every unit. *)
Fixpoint swap_pairs (dst : string) : string :=
  match dst with
  | String hi (String lo t) => String lo (String hi (swap_pairs t))
  | _ => dst
  end.

Definition Transform (endianness : Endianness) (src : string) : string :=
  let dst := units_from 0 src in
  match endianness with
  | LittleEndian => swap_pairs dst
  | BigEndian => dst
  end.

(** [UTF16(endianness, IgnoreBOM).NewEncoder().String(s)]; the error it
    returns is always [nil]. *)
Definition Encoder_String (endianness : Endianness) (s : string) : string :=
  Transform endianness s.

End encoding_unicode.

(** ** Package [encoding/json], for the type [[]string]

    The resource encodes and decodes values of one type only, [[]string]:
    [Marshal] and [Unmarshal] are modelled at that type. *)

Module json.

Definition dquote : ascii := "034"%char.

(** [isc c b]: the byte [b] is the character [c]. *)
Definition isc (c : ascii) (b : Z) : bool := b =? byte_val c.

(** [isSpace] of [scanner.go] *)
Definition isSpace (b : Z) : bool :=
  isc " " b || (b =? 0x09) || (b =? 0x0D) || (b =? 0x0A).

Definition hexval (b : Z) : option Z :=
  if between (byte_val "0") b (byte_val "9") then Some (b - byte_val "0")
  else if between (byte_val "a") b (byte_val "f") then Some (b - byte_val "a" + 10)
  else if between (byte_val "A") b (byte_val "F") then Some (b - byte_val "A" + 10)
  else None.

(** [getu4]: the value of the [\uXXXX] escape [s] starts with, or [-1]. *)
Definition getu4 (s : string) : Z :=
  match s with
  | String c0 (String c1 (String h1 (String h2 (String h3 (String h4 _))))) =>
    if isc "\" (byte_val c0) && isc "u" (byte_val c1) then
      match hexval (byte_val h1), hexval (byte_val h2),
            hexval (byte_val h3), hexval (byte_val h4) with
      | Some a, Some b, Some c, Some d => ((a * 16 + b) * 16 + c) * 16 + d
      | _, _, _, _ => -1
      end
    else -1
  | _ => -1
  end.

(** The states of the decoder, after the step functions of [scanner.go]
    ([stateBeginValue], [stateBeginValueOrEmpty], [stateInString], [stateN],
    [stateEndValue], [stateEndTop]).  [InString skip] is within a string
    literal, with [skip] bytes of the current escape or rune still to pass;
    [TopNull k] and [ElemNull k] are [k] letters into the literal [null]. *)
Inductive state :=
| BeginTop
| TopNull (k : nat)
| BeginValueOrEmpty
| BeginValue
| InString (skip : nat)
| ElemNull (k : nat)
| EndValue
| EndTop.

(** [null_letter k b]: [b] is the letter of [null] at offset [k]. *)
Definition null_letter (k : nat) (b : Z) : bool :=
  match k with
  | 1%nat => isc "u" b
  | 2%nat | 3%nat => isc "l" b
  | _ => false
  end.

(** The value of the simple escape [\e] ([unquoteBytes]; the scanner
    refuses the apostrophe that [unquoteBytes] alone would take). *)
Definition simple_escape (e : Z) : option Z :=
  if isc dquote e || isc "\" e || isc "/" e then Some e
  else if isc "b" e then Some 0x08
  else if isc "f" e then Some 0x0C
  else if isc "n" e then Some 0x0A
  else if isc "r" e then Some 0x0D
  else if isc "t" e then Some 0x09
  else None.

(** [decode st done cur s]: the decoder in state [st] on the remaining
    input [s], [done] the elements decoded so far and [cur] the bytes of
    the string literal being read.  [None] is any error: a syntax error
    ([checkValid]) or an element that is not a string or [null]
    ([UnmarshalTypeError]); [Unmarshal] returns a non-nil [err] for both. *)
Fixpoint decode (st : state) (done : list string) (cur : string) (s : string)
  : option (list string) :=
  match s with
  | EmptyString =>
    match st with
    | EndTop => Some done
    | _ => None
    end
  | String c t =>
    let b := byte_val c in
    match st with
    | BeginTop =>
      if isSpace b then decode BeginTop done cur t
      else if isc "[" b then decode BeginValueOrEmpty done cur t
      else if isc "n" b then decode (TopNull 1) done cur t
      else None
    | TopNull k =>
      if null_letter k b
      then decode (if (k =? 3)%nat then EndTop else TopNull (S k)) done cur t
      else None
    | BeginValueOrEmpty =>
      if isSpace b then decode BeginValueOrEmpty done cur t
      else if isc "]" b then decode EndTop done cur t
      else if isc dquote b then decode (InString 0) done EmptyString t
      else if isc "n" b then decode (ElemNull 1) done cur t
      else None
    | BeginValue =>
      if isSpace b then decode BeginValue done cur t
      else if isc dquote b then decode (InString 0) done EmptyString t
      else if isc "n" b then decode (ElemNull 1) done cur t
      else None
    | InString (S k) => decode (InString k) done cur t
    | InString O =>
      if isc dquote b then decode EndValue (done ++ [cur]) EmptyString t
      else if isc "\" b then
        match t with
        | EmptyString => None
        | String e _ =>
          if isc "u" (byte_val e) then
            let rr := getu4 s in
            if rr <? 0 then None
            else if utf16.IsSurrogate rr then
              let dec := utf16.DecodeRune rr (getu4 (drop_bytes 6 s)) in
              if dec =? unicode.ReplacementChar
              then decode (InString 5) done
                     (cur +:+ utf8.EncodeRune unicode.ReplacementChar) t
              else decode (InString 11) done (cur +:+ utf8.EncodeRune dec) t
            else decode (InString 5) done (cur +:+ utf8.EncodeRune rr) t
          else
            match simple_escape (byte_val e) with
            | Some x => decode (InString 1) done (cur +:+ String (byte_of x) EmptyString) t
            | None => None
            end
        end
      else if b <? 0x20 then None
      else if b <? utf8.RuneSelf
      then decode (InString 0) done (cur +:+ String c EmptyString) t
      else
        let '(rr, size) := utf8.DecodeRuneInString s in
        decode (InString (Nat.pred size)) done (cur +:+ utf8.EncodeRune rr) t
    | ElemNull k =>
      if null_letter k b
      then if (k =? 3)%nat
           then decode EndValue (done ++ [EmptyString]) EmptyString t
           else decode (ElemNull (S k)) done cur t
      else None
    | EndValue =>
      if isSpace b then decode EndValue done cur t
      else if isc "," b then decode BeginValue done cur t
      else if isc "]" b then decode EndTop done cur t
      else None
    | EndTop =>
      if isSpace b then decode EndTop done cur t else None
    end
  end.

(** [json.Unmarshal([]byte(in), &ret)] with [ret] a [[]string]: [Some l]
    when [err == nil], with [l] the slice left in [ret]. *)
Definition Unmarshal (data : string) : option (list string) :=
  decode BeginTop [] EmptyString data.

(** [htmlSafeSet]: the ASCII bytes [appendString] copies as they are. *)
Definition htmlSafe (b : Z) : bool :=
  between 0x20 b 0x7F
  && negb (isc dquote b || isc "&" b || isc "<" b || isc ">" b || isc "\" b).

Definition hex (n : Z) : ascii :=
  match String.get (Z.to_nat n) "0123456789abcdef" with
  | Some c => c
  | None => "0"%char
  end.

(** The escape [appendString] writes for an ASCII byte outside
    [htmlSafeSet]. *)
Definition escape (b : Z) : string :=
  if isc "\" b || isc dquote b then String "\" (String (byte_of b) EmptyString)
  else if b =? 0x08 then "\b"
  else if b =? 0x0C then "\f"
  else if b =? 0x0A then "\n"
  else if b =? 0x0D then "\r"
  else if b =? 0x09 then "\t"
  else "\u00" +:+ String (hex (Z.shiftr b 4)) (String (hex (Z.land b 0xF)) EmptyString).

(** Where [appendString] stands in its input: at the start of a rune, or
    within one whose remaining [k] bytes are copied or passed over. *)
Inductive mode :=
| AtRune
| Copy (k : nat)
| Skip (k : nat).

(** The body of the string literal [appendString] writes for [s], with
    [escapeHTML] set as [Marshal] sets it. *)
Fixpoint appendString_from (m : mode) (s : string) : string :=
  match s with
  | EmptyString => EmptyString
  | String c t =>
    match m with
    | Copy (S k) => String c (appendString_from (Copy k) t)
    | Skip (S k) => appendString_from (Skip k) t
    | _ =>
      let b := byte_val c in
      if b <? utf8.RuneSelf then
        (if htmlSafe b then String c EmptyString else escape b)
          +:+ appendString_from AtRune t
      else
        let '(r, size) := utf8.DecodeRuneInString s in
        if (r =? utf8.RuneError) && (size =? 1)%nat
        then "\ufffd" +:+ appendString_from AtRune t
        else if (r =? 0x2028) || (r =? 0x2029)
        then "\u202" +:+ String (hex (Z.land r 0xF)) (appendString_from (Skip (Nat.pred size)) t)
        else String c (appendString_from (Copy (Nat.pred size)) t)
    end
  end.

Definition appendString (s : string) : string :=
  String dquote (appendString_from AtRune s +:+ String dquote EmptyString).

Fixpoint join (sep : string) (l : list string) : string :=
  match l with
  | [] => EmptyString
  | [x] => x
  | x :: l' => x +:+ sep +:+ join sep l'
  end.

(** [json.Marshal(v)] with [v] a non-nil [[]string]; it returns no error
    at this type. *)
Definition Marshal (v : list string) : string :=
  "[" +:+ join "," (map appendString v) +:+ "]".

End json.

(** ** Iteration over a Go map

    The order in which [range] visits a Go map is unspecified and may
    change from one loop to the next.  Each such loop of the resource takes
    a [Traversal]: an arbitrary reordering of the entries it visits.  The
    results below hold for every traversal. *)

Record Traversal (A : Type) := {
  visit : list A -> list A;
  visit_perm : forall l, visit l ≡ₚ l
}.
Arguments visit {A} _ _.
Arguments visit_perm {A} _ _.

(** The traversal that visits the entries in the order they are stored. *)
Definition in_order {A} : Traversal A :=
  {| visit := fun l => l; visit_perm := fun l => Permutation_refl l |}.

(** ** Package [github.com/go-ldap/ldap/v3] *)

Module ldap.

(** A Go [error] returned by the client: a [*ldap.Error], which carries the
    LDAP result code, or an error of another type. *)
Inductive error :=
| Error (ResultCode : Z)
| other_error (msg : string).

Inductive result (A : Type) :=
| Ok (a : A)
| Err (err : error).
Arguments Ok {A} a.
Arguments Err {A} err.

Definition ScopeBaseObject : Z := 0.
Definition NeverDerefAliases : Z := 0.

Record SearchRequest := NewSearchRequest {
  BaseDN : string;
  Scope : Z;
  DerefAliases : Z;
  SizeLimit : Z;
  TimeLimit : Z;
  TypesOnly : bool;
  Filter : string;
  RequestedAttributes : list string
}.

Record EntryAttribute := NewEntryAttribute {
  Name : string;
  Values : list string
}.

Module Entry.
Record t := New { DN : string; Attributes : list EntryAttribute }.

(** [GetAttributeValues]: the values of the first attribute named
    [attribute], or none. *)
Fixpoint values_in (l : list EntryAttribute) (attribute : string) : list string :=
  match l with
  | [] => []
  | attr :: l' =>
    if String.eqb (Name attr) attribute then Values attr
    else values_in l' attribute
  end.

Definition GetAttributeValues (e : t) (attribute : string) : list string :=
  values_in (Attributes e) attribute.
End Entry.

Record SearchResult := { Entries : list Entry.t }.

Record Attribute := { AttrType : string; AttrVals : list string }.

Module AddRequest.
Record t := { DN : string; Attributes : list Attribute }.

Definition New (dn : string) : t := {| DN := dn; Attributes := [] |}.

(** [req.Attribute(attrType, attrVals)] *)
Definition Attribute (req : t) (attrType : string) (attrVals : list string) : t :=
  {| DN := DN req;
     Attributes := Attributes req ++ [{| AttrType := attrType; AttrVals := attrVals |}] |}.
End AddRequest.

Inductive Operation := AddAttribute | DeleteAttribute | ReplaceAttribute.

Record Change := {
  Op : Operation;
  ModType : string;
  ModVals : list string
}.

Module ModifyRequest.
Record t := { DN : string; Changes : list Change }.

Definition New (dn : string) : t := {| DN := dn; Changes := [] |}.

Definition appendChange (req : t) (operation : Operation)
    (attrType : string) (attrVals : list string) : t :=
  {| DN := DN req;
     Changes := Changes req ++
       [{| Op := operation; ModType := attrType; ModVals := attrVals |}] |}.

Definition Add req attrType attrVals := appendChange req AddAttribute attrType attrVals.
Definition Delete req attrType attrVals := appendChange req DeleteAttribute attrType attrVals.
Definition Replace req attrType attrVals := appendChange req ReplaceAttribute attrType attrVals.
End ModifyRequest.

Record DelRequest := NewDelRequest { DelDN : string }.

(** The connection, as the resource sees it: what the server answers to
    each request.  One operation of the resource sends each kind of request
    at most once. *)
Record Conn := {
  Search : SearchRequest -> result SearchResult;
  Add : AddRequest.t -> option error;
  Modify : ModifyRequest.t -> option error;
  Del : DelRequest -> option error
}.

End ldap.

(** The three deltas of the data model, as changes of a modify request. *)
Definition Remove (name : string) : ldap.Change :=
  {| ldap.Op := ldap.DeleteAttribute; ldap.ModType := name; ldap.ModVals := [] |}.
Definition Add (name : string) (values : list string) : ldap.Change :=
  {| ldap.Op := ldap.AddAttribute; ldap.ModType := name; ldap.ModVals := values |}.
Definition Replace (name : string) (values : list string) : ldap.Change :=
  {| ldap.Op := ldap.ReplaceAttribute; ldap.ModType := name; ldap.ModVals := values |}.

(** ** Package [helper/schema] of the Terraform plugin SDK: [Set] *)

Module schema.

(** The order of [sort.Strings]: byte-wise lexicographic. *)
Definition code_le (x y : string) : Prop := String.leb x y = true.

#[global] Instance code_le_dec x y : Decision (code_le x y).
Proof. unfold code_le. apply _. Defined.

Section Set_.
Context {A : Type}.

(** [F], the [SchemaSetFunc] of the set. *)
Variable F : A -> Z.

(** [s.hash(item)]: the key of [item], its hash code made non-negative
    and printed in decimal. *)
Definition hash (item : A) : string :=
  let code := F item in
  pretty (if code <? 0 then - code else code).

(** A set is its field [m]: the items by their key. *)
Definition Add (item : A) (s : gmap string A) : gmap string A :=
  match s !! hash item with
  | Some _ => s
  | None => <[hash item := item]> s
  end.

(** [s.listCode()]: the keys, sorted as strings. *)
Definition listCode (s : gmap string A) : list string :=
  merge_sort code_le (map fst (map_to_list s)).

(** [s.List()]: the items in the order of their keys. *)
Definition List (s : gmap string A) : list A :=
  omap (fun k => s !! k) (listCode s).

(** [s.Difference(other)]: the items of [s] whose key is not in [other]. *)
Definition Difference (s other : gmap string A) : gmap string A :=
  filter (fun kv => other !! kv.1 = None) s.

(** [s.Intersection(other)]: the items of [s] whose key is in [other]. *)
Definition Intersection (s other : gmap string A) : gmap string A :=
  filter (fun kv => is_Some (other !! kv.1)) s.

(** The set built by adding the items of [l] one by one. *)
Definition NewSet (l : list A) : gmap string A :=
  fold_left (fun s item => Add item s) l ∅.
End Set_.

End schema.

(** ** Package [util]: [Set]

    Modelled from the spec: the package [util] is not among the sources.
    Its [Set] holds the attribute names of the projections [removedNames],
    [addedNames] and [keptNames]: a set of strings with [Add], [Contains]
    and [List].  [List] enumerates each name once, in no particular order. *)

Module util.

(** Modelled from the spec: [util.NewSet()], the empty set of names. *)
Definition NewSet : gset string := ∅.

(** Modelled from the spec: [s.Add(k)]; a name lands in a projection once,
    however many entries carry it. *)
Definition Add (k : string) (s : gset string) : gset string := {[k]} ∪ s.

(** Modelled from the spec: [s.Contains(k)], "appears in" a projection. *)
Definition Contains (s : gset string) (k : string) : bool := bool_decide (k ∈ s).

(** Modelled from the spec: [s.List()], "for each name in" a projection;
    [t] is the order of the enumeration. *)
Definition List (t : Traversal string) (s : gset string) : list string :=
  visit t (elements s).

End util.

(** ** Running a function of the resource

    A function of the resource returns, or panics at run time (an index
    out of range). *)

Inductive run (A : Type) :=
| Returns (a : A)
| Panics.
Arguments Returns {A} a.
Arguments Panics {A}.

(** [fmt.Sprintf("%s=%s", name, value)] *)
Definition Sprintf_eq (name value : string) : string := name +:+ "=" +:+ value.

(** * [src/provider/resource_ldap_object.go]: attributes as a map *)

Module MapShaped.

(** The fields of the resource's schema.  The two sets of strings,
    [object_classes] and [skip_attributes], are held as their [List()]. *)
Record Fields := {
  dn : string;
  object_classes : list string;
  attributes : gmap string string;
  skip_attributes : list string
}.

(** [schema.ResourceData]: the id of the resource, the values of the prior
    state ([old]) and the values [d.Get] reads and [d.Set] writes ([new]). *)
Record ResourceData := {
  Id : string;
  old : Fields;
  new : Fields
}.

Definition SetId (v : string) (d : ResourceData) : ResourceData :=
  {| Id := v; old := old d; new := new d |}.

Definition Set_object_classes (v : list string) (d : ResourceData) : ResourceData :=
  {| Id := Id d; old := old d;
     new := {| dn := dn (new d); object_classes := v;
               attributes := attributes (new d);
               skip_attributes := skip_attributes (new d) |} |}.

Definition Set_attributes (v : gmap string string) (d : ResourceData) : ResourceData :=
  {| Id := Id d; old := old d;
     new := {| dn := dn (new d); object_classes := object_classes (new d);
               attributes := v;
               skip_attributes := skip_attributes (new d) |} |}.

(** The search [resourceLDAPObjectExists] sends: no attribute requested. *)
Definition existsRequest (dn : string) : ldap.SearchRequest :=
  ldap.NewSearchRequest dn ldap.ScopeBaseObject ldap.NeverDerefAliases 0 0 false
    "(objectClass=*)" [].

Definition resourceLDAPObjectExists (d : ResourceData) (l : ldap.Conn)
  : bool * option ldap.error :=
  let dn := dn (new d) in
  match ldap.Search l (existsRequest dn) with
  | ldap.Err err =>
    match err with
    | ldap.Error ResultCode =>
      if ResultCode =? 32 then (false, None) else (false, Some err)
    | _ => (false, Some err)
    end
  | ldap.Ok _ => (true, None)
  end.

Definition maybeJSONStringToArray (in_ : string) : list string :=
  if Strings.HasPrefix (Strings.TrimSpace in_) "[" then
    match json.Unmarshal in_ with
    | None => [in_]
    | Some ret => ret
    end
  else [in_].

Fixpoint stringListContains (needle : string) (haystack : list string) : bool :=
  match haystack with
  | [] => false
  | h :: haystack' =>
    if String.eqb needle h then true else stringListContains needle haystack'
  end.

(** [attributesToSkip], as create and read build it. *)
Definition attributesToSkip (d : ResourceData) : list string :=
  fold_left (fun acc attrName => acc ++ [attrName]) (skip_attributes (new d))
    ["objectClass"].

(** The request [resourceLDAPObjectCreate] builds (lines 123-156). [t]
    is the order in which the loop visits the map of attributes. *)
Definition addRequest (t : Traversal (string * string)) (d : ResourceData)
  : ldap.AddRequest.t :=
  let dn := dn (new d) in
  let request := ldap.AddRequest.New dn in
  let objectClasses :=
    fold_left (fun acc oc => acc ++ [oc]) (object_classes (new d)) [] in
  let request := ldap.AddRequest.Attribute request "objectClass" objectClasses in
  let attributesToSkip := attributesToSkip d in
  fold_left
    (fun request '(name, value) =>
       if stringListContains name attributesToSkip then request
       else
         let valsToSet := maybeJSONStringToArray value in
         ldap.AddRequest.Attribute request name valsToSet)
    (visit t (map_to_list (attributes (new d)))) request.

(** The search [readLDAPObject] sends. *)
Definition readRequest (dn : string) : ldap.SearchRequest :=
  ldap.NewSearchRequest dn ldap.ScopeBaseObject ldap.NeverDerefAliases 0 0 false
    "(objectclass=*)" ["*"].

(** One turn of the loop of [readLDAPObject] over the attributes of the
    entry (lines 286-313): [attributes] after [attribute] was treated.
    [json.Marshal] returns no error for a [[]string], so the turn cannot
    fail. *)
Definition readAttribute (dn : string) (attributesToSkip : list string)
    (attributes : gmap string string) (attribute : ldap.EntryAttribute)
  : gmap string string :=
  if stringListContains (ldap.Name attribute) attributesToSkip then attributes
  else
    match ldap.Values attribute with
    | [value] =>
      let a := Sprintf_eq (ldap.Name attribute) value in
      if Strings.HasPrefix dn a then attributes
      else <[ldap.Name attribute := value]> attributes
    | values => <[ldap.Name attribute := json.Marshal values]> attributes
    end.

Definition readAttributes (dn : string) (attributesToSkip : list string)
    (l : list ldap.EntryAttribute) : gmap string string :=
  fold_left (readAttribute dn attributesToSkip) l ∅.

Definition readLDAPObject (d : ResourceData) (client : ldap.Conn)
    (updateState : bool) : run (ResourceData * option ldap.error) :=
  let dn := dn (new d) in
  match ldap.Search client (readRequest dn) with
  | ldap.Err err =>
    match err with
    | ldap.Error ResultCode =>
      if (ResultCode =? 32) && updateState
      then Returns (SetId "" d, None)
      else Returns (d, Some err)
    | _ => Returns (d, Some err)
    end
  | ldap.Ok searchResult =>
    match ldap.Entries searchResult with
    | [] => Panics
    | entry :: _ =>
      let d := SetId dn d in
      let d := Set_object_classes
                 (ldap.Entry.GetAttributeValues entry "objectClass") d in
      let attributesToSkip := attributesToSkip d in
      let attributes :=
        readAttributes dn attributesToSkip (ldap.Entry.Attributes entry) in
      Returns (Set_attributes attributes d, None)
    end
  end.

Definition resourceLDAPObjectRead (d : ResourceData) (client : ldap.Conn)
  : run (ResourceData * option ldap.error) :=
  readLDAPObject d client true.

Definition resourceLDAPObjectCreate (t : Traversal (string * string))
    (d : ResourceData) (client : ldap.Conn)
  : run (ResourceData * option ldap.error) :=
  let dn := dn (new d) in
  let request := addRequest t d in
  match ldap.Add client request with
  | Some err => Returns (d, Some err)
  | None => resourceLDAPObjectRead (SetId dn d) client
  end.

(** [t1], [t2], [t3]: the orders of the three loops over the maps. *)
Definition computeAndAddDeltas (t1 t2 t3 : Traversal (string * string))
    (modify : ldap.ModifyRequest.t) (oldAttrs newAttrs : gmap string string)
  : ldap.ModifyRequest.t * option ldap.error :=
  let modify :=
    fold_left
      (fun modify '(oldName, _) =>
         match newAttrs !! oldName with
         | None => ldap.ModifyRequest.Delete modify oldName []
         | Some _ => modify
         end)
      (visit t1 (map_to_list oldAttrs)) modify in
  let modify :=
    fold_left
      (fun modify '(newName, v) =>
         match oldAttrs !! newName with
         | None => ldap.ModifyRequest.Add modify newName (maybeJSONStringToArray v)
         | Some _ => modify
         end)
      (visit t2 (map_to_list newAttrs)) modify in
  let modify :=
    fold_left
      (fun modify '(name, newValue) =>
         match oldAttrs !! name with
         | Some oldValue =>
           if negb (String.eqb oldValue newValue)
           then ldap.ModifyRequest.Replace modify name (maybeJSONStringToArray newValue)
           else modify
         | None => modify
         end)
      (visit t3 (map_to_list newAttrs)) modify in
  (modify, None).

Definition resourceLDAPObjectUpdate (t1 t2 t3 : Traversal (string * string))
    (d : ResourceData) (client : ldap.Conn)
  : run (ResourceData * option ldap.error) :=
  let modify := ldap.ModifyRequest.New (Id d) in
  let modify :=
    if bool_decide (object_classes (old d) <> object_classes (new d)) then
      let classes :=
        fold_left (fun acc oc => acc ++ [oc]) (object_classes (new d)) [] in
      ldap.ModifyRequest.Replace modify "objectClass" classes
    else modify in
  let '(modify, err) :=
    if bool_decide (attributes (old d) <> attributes (new d)) then
      let o := attributes (old d) in
      let n := attributes (new d) in
      computeAndAddDeltas t1 t2 t3 modify o n
    else (modify, None) in
  match err with
  | Some err => Returns (d, Some err)
  | None =>
    match ldap.Modify client modify with
    | Some err => Returns (d, Some err)
    | None => resourceLDAPObjectRead d client
    end
  end.

Definition resourceLDAPObjectDelete (d : ResourceData) (client : ldap.Conn)
  : option ldap.error :=
  let dn := dn (new d) in
  let request := ldap.NewDelRequest dn in
  ldap.Del client request.

(** [attributeHash] (lines 324-340); the schema of this version does not
    refer to it.  The elements of [values], which [%v] formats, are taken
    to be strings, and [int] to be 64 bits wide. *)
Definition attributeHash (ChecksumIEEE : string -> Z) (values : list string) : Z :=
  let buffer := "[]string {" in
  let buffer :=
    fold_left
      (fun buffer v => buffer +:+ (v +:+ "," +:+ String "010" EmptyString))
      values buffer in
  let buffer := buffer +:+ "}" in
  let h := ChecksumIEEE buffer in
  if h >=? 0 then h
  else if - h >=? 0 then - h
  else 0.

(** [toAttributeValue] (lines 386-393) *)
Definition toAttributeValue (name value : string) : string :=
  if String.eqb name "unicodePwd" then
    let pwdEncoded :=
      encoding_unicode.Encoder_String encoding_unicode.LittleEndian
        (String json.dquote EmptyString +:+ value +:+ String json.dquote EmptyString) in
    pwdEncoded
  else value.

End MapShaped.

(** * [src/unnamed/part_000]: attributes as a set of single-entry maps *)

Module SetShaped.

(** An element of the set of attributes: a map with one entry,
    [{name: value}] ("each map should only have one entry (see resource
    declaration)"), held as the pair of its key and its value. *)
Definition item : Type := string * string.

Record Fields := {
  dn : string;
  object_classes : list string;
  attributes : gmap string item
}.

Record ResourceData := {
  Id : string;
  old : Fields;
  new : Fields
}.

Definition SetId (v : string) (d : ResourceData) : ResourceData :=
  {| Id := v; old := old d; new := new d |}.

Definition Set_object_classes (v : list string) (d : ResourceData) : ResourceData :=
  {| Id := Id d; old := old d;
     new := {| dn := dn (new d); object_classes := v;
               attributes := attributes (new d) |} |}.

Definition Set_attributes (v : gmap string item) (d : ResourceData)
  : ResourceData :=
  {| Id := Id d; old := old d;
     new := {| dn := dn (new d); object_classes := object_classes (new d);
               attributes := v |} |}.

Definition existsRequest (dn : string) : ldap.SearchRequest :=
  ldap.NewSearchRequest dn ldap.ScopeBaseObject ldap.NeverDerefAliases 0 0 false
    "(objectClass=*)" [].

Definition readRequest (dn : string) : ldap.SearchRequest :=
  ldap.NewSearchRequest dn ldap.ScopeBaseObject ldap.NeverDerefAliases 0 0 false
    "(objectclass=*)" ["*"].

Definition resourceLDAPObjectExists (d : ResourceData) (l : ldap.Conn)
  : bool * option ldap.error :=
  let dn := dn (new d) in
  match ldap.Search l (existsRequest dn) with
  | ldap.Err err =>
    match err with
    | ldap.Error ResultCode =>
      if ResultCode =? 32 then (false, None) else (false, Some err)
    | _ => (false, Some err)
    end
  | ldap.Ok _ => (true, None)
  end.

Definition resourceLDAPObjectDelete (d : ResourceData) (client : ldap.Conn)
  : option ldap.error :=
  let dn := dn (new d) in
  let request := ldap.NewDelRequest dn in
  ldap.Del client request.

(** The loop of [resourceLDAPObjectCreate] that accumulates the values
    that share a name (lines 130-138). *)
Definition collect (attributes : list item) : gmap string (list string) :=
  fold_left
    (fun m '(name, value) => <[name := default [] (m !! name) ++ [value]]> m)
    attributes ∅.

(** The inner loops of [computeAndAddDeltas] that gather, from the listing
    of the new set, all the values under the name [k] (lines 372-379 and
    393-400). *)
Definition valuesOf (k : string) (l : list item) : list string :=
  fold_left
    (fun values '(mk, mv) =>
       if String.eqb k mk then values ++ [mv] else values)
    l [].

(** The loops that project a set of entries onto their names (lines
    329-348). *)
Definition namesOf (l : list item) : gset string :=
  fold_left (fun names '(k, _) => util.Add k names) l util.NewSet.

Section Resource.

(** [fmt]'s verb [%q] at a string ([strconv.Quote]) and
    [crc32.ChecksumIEEE]: the two library functions [attributeHash] is
    made of.  Nothing below depends on what they compute. *)
Variable Quote : string -> string.
Variable ChecksumIEEE : string -> Z.

(** [int] is taken to be 64 bits wide, so that the conversion of the
    checksum does not wrap. *)
Definition attributeHash (v : item) : Z :=
  let '(k, v) := v in
  let buffer := "map {" in
  let buffer := buffer +:+ (Quote k +:+ " := " +:+ Quote v +:+ ";") in
  let buffer := buffer +:+ "}" in
  let h := ChecksumIEEE buffer in
  if h >=? 0 then h
  else if - h >=? 0 then - h
  else 0.

(** The request [resourceLDAPObjectCreate] builds (lines 110-144). [t]
    is the order in which the loop visits the map [m]. *)
Definition addRequest (t : Traversal (string * list string)) (d : ResourceData)
  : ldap.AddRequest.t :=
  let dn := dn (new d) in
  let request := ldap.AddRequest.New dn in
  let objectClasses :=
    fold_left (fun acc oc => acc ++ [oc]) (object_classes (new d)) [] in
  let request := ldap.AddRequest.Attribute request "objectClass" objectClasses in
  let attributes := schema.List (attributes (new d)) in
  if (0 <? length attributes)%nat then
    let m := collect attributes in
    fold_left
      (fun request '(name, values) => ldap.AddRequest.Attribute request name values)
      (visit t (map_to_list m)) request
  else request.

(** One turn of the loop of [readLDAPObject] over the attributes of
    the entry (lines 260-286). *)
Definition readAttribute (dn : string) (set : gmap string item)
    (attribute : ldap.EntryAttribute) : gmap string item :=
  if String.eqb (ldap.Name attribute) "objectClass" then set
  else
    let rdn :=
      match ldap.Values attribute with
      | [value] => Strings.HasPrefix dn (Sprintf_eq (ldap.Name attribute) value)
      | _ => false
      end in
    if rdn then set
    else
      fold_left
        (fun set value => schema.Add attributeHash (ldap.Name attribute, value) set)
        (ldap.Values attribute) set.

Definition readAttributes (dn : string) (l : list ldap.EntryAttribute)
  : gmap string item :=
  fold_left (readAttribute dn) l ∅.

Definition readLDAPObject (d : ResourceData) (client : ldap.Conn)
    (updateState : bool) : run (ResourceData * option ldap.error) :=
  let dn := dn (new d) in
  match ldap.Search client (readRequest dn) with
  | ldap.Err err =>
    match err with
    | ldap.Error ResultCode =>
      if (ResultCode =? 32) && updateState
      then Returns (SetId "" d, None)
      else Returns (d, Some err)
    | _ => Returns (d, Some err)
    end
  | ldap.Ok sr =>
    match ldap.Entries sr with
    | [] => Panics
    | entry :: _ =>
      let d := SetId dn d in
      let d := Set_object_classes
                 (ldap.Entry.GetAttributeValues entry "objectClass") d in
      let set := readAttributes dn (ldap.Entry.Attributes entry) in
      Returns (Set_attributes set d, None)
    end
  end.

Definition resourceLDAPObjectRead (d : ResourceData) (client : ldap.Conn)
  : run (ResourceData * option ldap.error) :=
  readLDAPObject d client true.

Definition resourceLDAPObjectCreate (t : Traversal (string * list string))
    (d : ResourceData) (client : ldap.Conn)
  : run (ResourceData * option ldap.error) :=
  let dn := dn (new d) in
  let request := addRequest t d in
  match ldap.Add client request with
  | Some err => Returns (d, Some err)
  | None => resourceLDAPObjectRead (SetId dn d) client
  end.

(** [t_rk], [t_ak], [t_ck]: the orders in which [rk.List()], [ak.List()]
    and [ck.List()] enumerate the names. *)
Definition computeAndAddDeltas (t_rk t_ak t_ck : Traversal string)
    (modify : ldap.ModifyRequest.t) (os ns : gmap string item)
  : ldap.ModifyRequest.t * option ldap.error :=
  let rk := namesOf (schema.List (schema.Difference os ns)) in
  let ak := namesOf (schema.List (schema.Difference ns os)) in
  let kk := namesOf (schema.List (schema.Intersection ns os)) in
  let ck := util.NewSet in
  let '(modify, ck) :=
    fold_left
      (fun '(modify, ck) k =>
         if negb (util.Contains ak k) && negb (util.Contains kk k)
         then (ldap.ModifyRequest.Delete modify k [], ck)
         else (modify, util.Add k ck))
      (util.List t_rk rk) (modify, ck) in
  let '(modify, ck) :=
    fold_left
      (fun '(modify, ck) k =>
         if negb (util.Contains rk k) && negb (util.Contains kk k)
         then
           let values := valuesOf k (schema.List ns) in
           (ldap.ModifyRequest.Add modify k values, ck)
         else (modify, util.Add k ck))
      (util.List t_ak ak) (modify, ck) in
  let modify :=
    fold_left
      (fun modify k =>
         let values := valuesOf k (schema.List ns) in
         ldap.ModifyRequest.Replace modify k values)
      (util.List t_ck ck) modify in
  (modify, None).

Definition resourceLDAPObjectUpdate (t_rk t_ak t_ck : Traversal string)
    (d : ResourceData) (client : ldap.Conn)
  : run (ResourceData * option ldap.error) :=
  let modify := ldap.ModifyRequest.New (Id d) in
  let modify :=
    if bool_decide (object_classes (old d) <> object_classes (new d)) then
      let classes :=
        fold_left (fun acc oc => acc ++ [oc]) (object_classes (new d)) [] in
      ldap.ModifyRequest.Replace modify "objectClass" classes
    else modify in
  let '(modify, err) :=
    if bool_decide (attributes (old d) <> attributes (new d)) then
      let o := attributes (old d) in
      let n := attributes (new d) in
      computeAndAddDeltas t_rk t_ak t_ck modify o n
    else (modify, None) in
  match err with
  | Some err => Returns (d, Some err)
  | None =>
    match ldap.Modify client modify with
    | Some err => Returns (d, Some err)
    | None => resourceLDAPObjectRead d client
    end
  end.

End Resource.

End SetShaped.

(** ** Package [hash/crc32] *)

Module crc32.

(** One bit of the reflected CRC-32 with the IEEE polynomial. *)
Definition shift (crc : Z) : Z :=
  if Z.testbit crc 0 then Z.lxor (Z.shiftr crc 1) 0xEDB88320 else Z.shiftr crc 1.

Definition update (crc : Z) (c : ascii) : Z :=
  Nat.iter 8 shift (Z.lxor crc (byte_val c)).

Fixpoint update_all (crc : Z) (s : string) : Z :=
  match s with
  | EmptyString => crc
  | String c t => update_all (update crc c) t
  end.

Definition ChecksumIEEE (data : string) : Z :=
  Z.lxor (update_all 0xFFFFFFFF data) 0xFFFFFFFF.

End crc32.

(** ** Package [strconv] *)

Module strconv.

(** [Quote] on the bytes of a string of ASCII text: a double-quoted Go
    string literal, with the escapes of [appendEscapedRune].  A byte that
    is not ASCII is written [\xNN], as [Quote] writes a byte that is not
    part of a valid UTF-8 sequence. *)
Definition escaped (c : ascii) : string :=
  let b := byte_val c in
  if json.isc json.dquote b || json.isc "\" b then String "\" (String c EmptyString)
  else if between 0x20 b 0x7E then String c EmptyString
  else if b =? 0x07 then "\a"
  else if b =? 0x08 then "\b"
  else if b =? 0x0C then "\f"
  else if b =? 0x0A then "\n"
  else if b =? 0x0D then "\r"
  else if b =? 0x09 then "\t"
  else if b =? 0x0B then "\v"
  else "\x" +:+ String (json.hex (Z.shiftr b 4)) (String (json.hex (Z.land b 0xF)) EmptyString).

Fixpoint escape_all (s : string) : string :=
  match s with
  | EmptyString => EmptyString
  | String c t => escaped c +:+ escape_all t
  end.

Definition Quote (s : string) : string :=
  String json.dquote (escape_all s +:+ String json.dquote EmptyString).

End strconv.

(** * The vocabulary of the statements *)

(** [push modify l]: the request [modify] with the changes [l] appended. *)
Definition push (modify : ldap.ModifyRequest.t) (l : list ldap.Change)
  : ldap.ModifyRequest.t :=
  {| ldap.ModifyRequest.DN := ldap.ModifyRequest.DN modify;
     ldap.ModifyRequest.Changes := ldap.ModifyRequest.Changes modify ++ l |}.

(** ** The diff of two maps *)

(** The change each of the three loops of [MapShaped.computeAndAddDeltas]
    appends for the entry [kv] it visits, if any. *)
Definition removedChange (newAttrs : gmap string string) (kv : string * string)
  : option ldap.Change :=
  match newAttrs !! kv.1 with
  | None => Some (Remove kv.1)
  | Some _ => None
  end.

Definition addedChange (oldAttrs : gmap string string) (kv : string * string)
  : option ldap.Change :=
  match oldAttrs !! kv.1 with
  | None => Some (Add kv.1 (MapShaped.maybeJSONStringToArray kv.2))
  | Some _ => None
  end.

Definition replacedChange (oldAttrs : gmap string string) (kv : string * string)
  : option ldap.Change :=
  match oldAttrs !! kv.1 with
  | Some oldValue =>
    if negb (String.eqb oldValue kv.2)
    then Some (Replace kv.1 (MapShaped.maybeJSONStringToArray kv.2))
    else None
  | None => None
  end.

(** ** The diff of two sets *)

(** The names of the removed, the added and the kept entries: the sets
    [rk], [ak] and [kk] of [SetShaped.computeAndAddDeltas] (lines 329-348). *)
Definition removedNames (os ns : gmap string SetShaped.item) : gset string :=
  SetShaped.namesOf (schema.List (schema.Difference os ns)).
Definition addedNames (os ns : gmap string SetShaped.item) : gset string :=
  SetShaped.namesOf (schema.List (schema.Difference ns os)).
Definition keptNames (os ns : gmap string SetShaped.item) : gset string :=
  SetShaped.namesOf (schema.List (schema.Intersection ns os)).

(** [lone a b k]: the test [!a.Contains(k) && !b.Contains(k)]. *)
Definition lone (a b : gset string) (k : string) : bool :=
  negb (util.Contains a k) && negb (util.Contains b k).

(** The names the set [ck] holds when the first two loops are over. *)
Definition changedNames (os ns : gmap string SetShaped.item) : gset string :=
  filter (fun k => k ∈ addedNames os ns \/ k ∈ keptNames os ns) (removedNames os ns)
  ∪ filter (fun k => k ∈ removedNames os ns \/ k ∈ keptNames os ns) (addedNames os ns).

(** ** The projection of an entry *)

(** [rdnLike dn a]: the attribute [a] has a single value, and [name=value]
    is a prefix of [dn]. *)
Definition rdnLike (dn : string) (a : ldap.EntryAttribute) : Prop :=
  exists value, ldap.Values a = [value]
    /\ Strings.HasPrefix dn (Sprintf_eq (ldap.Name a) value) = true.

#[global] Instance rdnLike_dec dn a : Decision (rdnLike dn a).
Proof.
  unfold rdnLike. destruct (ldap.Values a) as [|v [|w l]].
  - right. by intros (? & [=] & _).
  - destruct (Strings.HasPrefix dn (Sprintf_eq (ldap.Name a) v)) eqn:E.
    + left. by exists v.
    + right. intros (? & [= <-] & ?). congruence.
  - right. by intros (? & [=] & _).
Defined.

(** The leading component of a DN: its bytes up to the first comma. *)
Fixpoint leadingRDN (dn : string) : string :=
  match dn with
  | EmptyString => EmptyString
  | String c t => if Ascii.eqb c "," then EmptyString else String c (leadingRDN t)
  end.

(** [mapKept dn skip a]: the map projection emits an entry for [a]. *)
Definition mapKept (dn : string) (skip : list string) (a : ldap.EntryAttribute)
  : Prop :=
  (ldap.Name a ∉ skip) /\ ~ rdnLike dn a.

#[global] Instance mapKept_dec dn skip a : Decision (mapKept dn skip a).
Proof. unfold mapKept. apply _. Defined.

(** What the declared map holds for the values of an attribute it keeps. *)
Definition encoded (values : list string) : string :=
  match values with
  | [value] => value
  | _ => json.Marshal values
  end.


(** [setKept dn a]: the set projection emits the entries of [a]. *)
Definition setKept (dn : string) (a : ldap.EntryAttribute) : Prop :=
  ldap.Name a <> "objectClass" /\ ~ rdnLike dn a.

#[global] Instance setKept_dec dn a : Decision (setKept dn a).
Proof. unfold setKept. apply _. Defined.

(** The entries the set projection emits, in the order it adds them. *)
Definition keptItems (dn : string) (l : list ldap.EntryAttribute)
  : list SetShaped.item :=
  flat_map
    (fun a => if decide (setKept dn a)
              then map (fun value => (ldap.Name a, value)) (ldap.Values a)
              else [])
    l.


(** [decodesAsArray v]: [maybeJSONStringToArray] reads [v] as a JSON array. *)
Definition decodesAsArray (v : string) : Prop :=
  Strings.HasPrefix (Strings.TrimSpace v) "[" = true /\ is_Some (json.Unmarshal v).

#[global] Instance decodesAsArray_dec v : Decision (decodesAsArray v).
Proof. unfold decodesAsArray. apply _. Defined.

(** [roundTrips values]: the value list survives the encoding of the map
    mode: it has a value (an attribute of an entry has one or more), a
    single value is not read back as an array, and a list of several
    values is what decoding its JSON encoding gives. *)
Definition roundTrips (values : list string) : Prop :=
  match values with
  | [] => False
  | [value] => ~ decodesAsArray value
  | _ => json.Unmarshal (json.Marshal values) = Some values
  end.

#[global] Instance roundTrips_dec values : Decision (roundTrips values).
Proof. unfold roundTrips. destruct values as [|v [|w l]]; apply _. Defined.

(** [valid_from skip s]: [s] is made of well-formed UTF-8 sequences, as
    [utf8.ValidString] checks; [skip] counts the bytes of the current rune
    still to be passed. *)
Fixpoint valid_from (skip : nat) (s : string) : bool :=
  match s with
  | EmptyString => true
  | String c t =>
    match skip with
    | S k => valid_from k t
    | O =>
      let '(r, size) := utf8.DecodeRuneInString s in
      if (r =? utf8.RuneError) && (size =? 1)%nat then false
      else valid_from (Nat.pred size) t
    end
  end.

Definition validUTF8 (s : string) : bool := valid_from 0 s.

(** [encodable values]: what the map mode asks of the values of an
    attribute: there is one or more (as an attribute of an entry has), a
    single value is not read back as a JSON array, and each of several
    values is well-formed UTF-8. *)
Definition encodable (values : list string) : Prop :=
  match values with
  | [] => False
  | [value] => ~ decodesAsArray value
  | _ => Forall (fun v => validUTF8 v = true) values
  end.

#[global] Instance encodable_dec values : Decision (encodable values).
Proof. unfold encodable. destruct values as [|v [|w l]]; apply _. Defined.

(** [asciiOnly s]: every byte of [s] is below [utf8.RuneSelf]. *)
Fixpoint asciiOnly (s : string) : bool :=
  match s with
  | EmptyString => true
  | String c t => (byte_val c <? utf8.RuneSelf) && asciiOnly t
  end.

(** The bytes [json.appendString] writes for the ASCII byte [c]. *)
Definition written (c : ascii) : string :=
  if json.htmlSafe (byte_val c) then String c EmptyString
  else json.escape (byte_val c).


(** ** The white space of JSON *)

(** [jsonSpaces s]: [s] is made of the four white space characters of
    JSON. *)
Fixpoint jsonSpaces (s : string) : bool :=
  match s with
  | EmptyString => true
  | String c t => json.isSpace (byte_val c) && jsonSpaces t
  end.

(** [mustRead st]: in the state [st] the decoder has an element to finish. *)
Definition mustRead (st : json.state) : bool :=
  match st with
  | json.BeginValue | json.InString _ | json.ElemNull _ => true
  | _ => false
  end.

(** ** The requests of create and update *)

(** [attach request l]: the add request [request] with the attributes [l]
    appended. *)
Definition attach (request : ldap.AddRequest.t) (l : list ldap.Attribute)
  : ldap.AddRequest.t :=
  {| ldap.AddRequest.DN := ldap.AddRequest.DN request;
     ldap.AddRequest.Attributes := ldap.AddRequest.Attributes request ++ l |}.

(** The attribute the loop of [MapShaped.resourceLDAPObjectCreate] appends
    for the entry [kv] of the declared map, if any (lines 148-155). *)
Definition createdAttribute (skip : list string) (kv : string * string)
  : option ldap.Attribute :=
  if MapShaped.stringListContains kv.1 skip then None
  else Some {| ldap.AttrType := kv.1;
               ldap.AttrVals := MapShaped.maybeJSONStringToArray kv.2 |}.

(** The change [resourceLDAPObjectUpdate] starts its request with: the
    replacement of [objectClass], when [d.HasChange("object_classes")]. *)
Definition classChange (oldClasses newClasses : list string) : list ldap.Change :=
  if bool_decide (oldClasses <> newClasses)
  then [Replace "objectClass" newClasses] else [].

(** ** Hash codes *)

(** [first_under F code l]: the first item of [l] whose key is [code]. *)
Definition first_under {A} (F : A -> Z) (code : string) (l : list A) : option A :=
  List.find (fun y => bool_decide (schema.hash F y = code)) l.

(** [uint32 x]: [x] is a value of the type [uint32]. *)
Definition uint32 (x : Z) : Prop := 0 <= x < 2 ^ 32.

(** The text [SetShaped.attributeHash] writes to its buffer for the entry
    [{name: value}]. *)
Definition attributeText (Quote : string -> string) (name value : string) : string :=
  ("map {" +:+ (Quote name +:+ " := " +:+ Quote value +:+ ";")) +:+ "}".

(** [widen s]: every byte of [s] followed by a zero byte, the UTF-16
    little-endian encoding of ASCII text. *)
Fixpoint widen (s : string) : string :=
  match s with
  | EmptyString => EmptyString
  | String c t => String c (String "000" (widen t))
  end.

(** ** Sample data *)

(** [quoted s]: [s] between double quotes. *)
Definition quoted (s : string) : string :=
  String json.dquote (s +:+ String json.dquote EmptyString).

Definition sample_dn : string := "cn=admin,dc=example,dc=org".

Definition sample_entry : ldap.Entry.t :=
  ldap.Entry.New sample_dn
    [ldap.NewEntryAttribute "objectClass" ["top"; "person"];
     ldap.NewEntryAttribute "cn" ["admin"];
     ldap.NewEntryAttribute "sn" ["Admin"];
     ldap.NewEntryAttribute "mail" ["a@example.org"; "b@example.org"];
     ldap.NewEntryAttribute "description" ["[draft] notes"]].

(** A server that holds [sample_entry] and accepts every request. *)
Definition sample_server : ldap.Conn :=
  {| ldap.Search := fun _ => ldap.Ok {| ldap.Entries := [sample_entry] |};
     ldap.Add := fun _ => None;
     ldap.Modify := fun _ => None;
     ldap.Del := fun _ => None |}.

(** A server that answers "no such object" to every request. *)
Definition gone_server : ldap.Conn :=
  {| ldap.Search := fun _ => ldap.Err (ldap.Error 32);
     ldap.Add := fun _ => Some (ldap.Error 32);
     ldap.Modify := fun _ => Some (ldap.Error 32);
     ldap.Del := fun _ => Some (ldap.Error 32) |}.

Definition sample_map_fields : MapShaped.Fields :=
  {| MapShaped.dn := sample_dn;
     MapShaped.object_classes := ["top"; "person"];
     MapShaped.attributes := ∅;
     MapShaped.skip_attributes := [] |}.

Definition sample_map_data : MapShaped.ResourceData :=
  {| MapShaped.Id := sample_dn;
     MapShaped.old := sample_map_fields;
     MapShaped.new := sample_map_fields |}.

Definition sample_set_fields : SetShaped.Fields :=
  {| SetShaped.dn := sample_dn;
     SetShaped.object_classes := ["top"; "person"];
     SetShaped.attributes := ∅ |}.

Definition sample_set_data : SetShaped.ResourceData :=
  {| SetShaped.Id := sample_dn;
     SetShaped.old := sample_set_fields;
     SetShaped.new := sample_set_fields |}.

(** [attributeHash] with [crc32.ChecksumIEEE] and [strconv.Quote]. *)
Definition sample_hash : SetShaped.item -> Z :=
  SetShaped.attributeHash strconv.Quote crc32.ChecksumIEEE.

(** A DN as the resource declares it, while the directory holds the entry
    under [sample_dn]: the two differ by the case of the attribute type of
    the RDN, which a directory does not distinguish when it looks the
    entry up. *)
Definition declared_dn : string := "CN=admin,dc=example,dc=org".

Definition respelled_entry : ldap.Entry.t :=
  ldap.Entry.New sample_dn
    [ldap.NewEntryAttribute "objectClass" ["top"; "person"];
     ldap.NewEntryAttribute "cn" ["admin"];
     ldap.NewEntryAttribute "sn" ["Admin"]].

Definition respelled_server : ldap.Conn :=
  {| ldap.Search := fun _ => ldap.Ok {| ldap.Entries := [respelled_entry] |};
     ldap.Add := fun _ => None;
     ldap.Modify := fun _ => None;
     ldap.Del := fun _ => None |}.

Definition respelled_map_data : MapShaped.ResourceData :=
  {| MapShaped.Id := declared_dn;
     MapShaped.old :=
       {| MapShaped.dn := declared_dn;
          MapShaped.object_classes := ["top"; "person"];
          MapShaped.attributes := ∅;
          MapShaped.skip_attributes := [] |};
     MapShaped.new :=
       {| MapShaped.dn := declared_dn;
          MapShaped.object_classes := ["top"; "person"];
          MapShaped.attributes := ∅;
          MapShaped.skip_attributes := [] |} |}.

Definition respelled_set_data : SetShaped.ResourceData :=
  {| SetShaped.Id := declared_dn;
     SetShaped.old :=
       {| SetShaped.dn := declared_dn;
          SetShaped.object_classes := ["top"; "person"];
          SetShaped.attributes := ∅ |};
     SetShaped.new :=
       {| SetShaped.dn := declared_dn;
          SetShaped.object_classes := ["top"; "person"];
          SetShaped.attributes := ∅ |} |}.


(** Two entries whose texts have the same CRC-32. *)
Definition colliding_a : SetShaped.item := ("mail", "cugzhv").
Definition colliding_b : SetShaped.item := ("mail", "gozzh").

(** A server whose entry holds the two values. *)
Definition colliding_server : ldap.Conn :=
  {| ldap.Search := fun _ =>
       ldap.Ok {| ldap.Entries :=
         [ldap.Entry.New sample_dn
            [ldap.NewEntryAttribute "mail" ["cugzhv"; "gozzh"]]] |};
     ldap.Add := fun _ => None;
     ldap.Modify := fun _ => None;
     ldap.Del := fun _ => None |}.

(** A resource that declares a new value for an attribute it skips. *)
Definition skipping_data : MapShaped.ResourceData :=
  {| MapShaped.Id := sample_dn;
     MapShaped.old :=
       {| MapShaped.dn := sample_dn;
          MapShaped.object_classes := ["top"; "person"];
          MapShaped.attributes := {[ "userPassword" := "old" ]};
          MapShaped.skip_attributes := ["userPassword"] |};
     MapShaped.new :=
       {| MapShaped.dn := sample_dn;
          MapShaped.object_classes := ["top"; "person"];
          MapShaped.attributes := {[ "userPassword" := "new" ]};
          MapShaped.skip_attributes := ["userPassword"] |} |}.

(** * Properties *)

(** [by_computation] settles a decidable statement about concrete data by
    evaluating its decision procedure. *)
Ltac by_computation := apply (bool_decide_unpack _); vm_compute; exact I.

(** ** Lists and traversals *)

Lemma nil_of_no_elem {A} (l : list A) : (forall x, x ∉ l) -> l = [].
Proof.
  destruct l as [|a l]; [done|]. intros H. destruct (H a). left.
Qed.

Lemma singleton_of_elems {A} (l : list A) (a : A) :
  NoDup l -> (forall x, x ∈ l <-> x = a) -> l = [a].
Proof.
  intros Hnd H. destruct l as [|b l].
  - assert (a ∈ @nil A) as Ha by (apply H; done). inversion Ha.
  - assert (b = a) as -> by (apply H; left).
    f_equal. apply nil_of_no_elem. intros x Hx.
    assert (x = a) as -> by (apply H; by right).
    apply NoDup_cons in Hnd as [Hn _]. done.
Qed.

Lemma visit_elem_of {A} (t : Traversal A) (l : list A) (x : A) :
  x ∈ visit t l <-> x ∈ l.
Proof. by rewrite (visit_perm t l). Qed.

Lemma visit_NoDup_fst {A B} (t : Traversal (A * B)) (l : list (A * B)) :
  NoDup (map fst l) -> NoDup (map fst (visit t l)).
Proof. intros H. by rewrite (visit_perm t l). Qed.

Lemma visit_nil {A} (t : Traversal A) : visit t [] = [].
Proof. apply Permutation_nil_r, visit_perm. Qed.

Lemma visit_singleton {A} (t : Traversal A) x : visit t [x] = [x].
Proof. apply Permutation_singleton_r, visit_perm. Qed.

Lemma fold_left_agree {A B} (f g : A -> B -> A) (l : list B) (a : A) :
  (forall a x, f a x = g a x) -> fold_left f l a = fold_left g l a.
Proof.
  intros H. revert a. induction l as [|x l IH]; intros a; simpl; [done|].
  by rewrite H, IH.
Qed.

Lemma fold_append {A} (l acc : list A) :
  fold_left (fun acc x => acc ++ [x]) l acc = acc ++ l.
Proof.
  revert acc. induction l as [|x l IH]; intros acc; simpl.
  - by rewrite app_nil_r.
  - by rewrite IH, <- app_assoc.
Qed.

Lemma NoDup_same_name (l : list ldap.EntryAttribute) a b :
  NoDup (map ldap.Name l) -> a ∈ l -> b ∈ l -> ldap.Name a = ldap.Name b -> a = b.
Proof.
  intros Hnd Ha Hb E.
  apply list_elem_of_lookup in Ha as [i Hi]. apply list_elem_of_lookup in Hb as [j Hj].
  assert (i = j) as ->; [|congruence].
  apply (NoDup_lookup _ i j (ldap.Name a) Hnd).
  - by rewrite list_lookup_fmap, Hi.
  - rewrite list_lookup_fmap, Hj. simpl. by rewrite E.
Qed.

(** ** Requests and their changes *)

Lemma push_nil modify : push modify [] = modify.
Proof. unfold push. rewrite app_nil_r. by destruct modify. Qed.

Lemma push_push modify l1 l2 : push (push modify l1) l2 = push modify (l1 ++ l2).
Proof. unfold push. simpl. by rewrite app_assoc. Qed.

(** A loop that appends at most one change per entry it visits appends the
    changes of the entries it keeps, in the order of the visit. *)
Lemma fold_changes {A} (h : A -> option ldap.Change)
    (f : ldap.ModifyRequest.t -> A -> ldap.ModifyRequest.t)
    (l : list A) (modify : ldap.ModifyRequest.t) :
  (forall modify x,
     f modify x = match h x with
                  | Some c => push modify [c]
                  | None => modify
                  end) ->
  fold_left f l modify = push modify (omap h l).
Proof.
  intros Hf. revert modify. induction l as [|x l IH]; intros modify; simpl.
  - by rewrite push_nil.
  - rewrite IH, Hf. destruct (h x) as [c|]; [|done]. by rewrite push_push.
Qed.

Lemma omap_NoDup_keyed {A} (key : A -> string) (h : A -> option ldap.Change)
    (l : list A) :
  (forall x c, h x = Some c -> ldap.ModType c = key x) ->
  NoDup (map key l) -> NoDup (omap h l).
Proof.
  intros Hk. induction l as [|x l IH]; simpl; intros Hnd; [constructor|].
  apply NoDup_cons in Hnd as [Hx Hnd].
  destruct (h x) as [c|] eqn:Hc; [|by apply IH].
  apply NoDup_cons. split; [|by apply IH].
  intros Hin. apply list_elem_of_omap in Hin as (y & Hy & Hcy).
  apply Hx. apply list_elem_of_fmap. exists y. split; [|done].
  by rewrite <- (Hk _ _ Hc), <- (Hk _ _ Hcy).
Qed.



(** ** The diff of two maps of attributes *)

Section MapDiff.
Import MapShaped.
Implicit Types oldAttrs newAttrs : gmap string string.
Implicit Types t : Traversal (string * string).

(** The request after [computeAndAddDeltas]: the removals, then the
    additions, then the replacements, each in the order of its loop. *)
Lemma map_computeAndAddDeltas_changes t1 t2 t3 modify oldAttrs newAttrs :
  computeAndAddDeltas t1 t2 t3 modify oldAttrs newAttrs =
  (push modify
     (omap (removedChange newAttrs) (visit t1 (map_to_list oldAttrs))
      ++ omap (addedChange oldAttrs) (visit t2 (map_to_list newAttrs))
      ++ omap (replacedChange oldAttrs) (visit t3 (map_to_list newAttrs))),
   None).
Proof.
  unfold computeAndAddDeltas. f_equal.
  rewrite (fold_changes (replacedChange oldAttrs)).
  2:{ intros a [k v]. unfold replacedChange. simpl.
      destruct (oldAttrs !! k); [|done]. by destruct (negb _). }
  rewrite (fold_changes (addedChange oldAttrs)).
  2:{ intros a [k v]. unfold addedChange. simpl. by destruct (oldAttrs !! k). }
  rewrite (fold_changes (removedChange newAttrs)).
  2:{ intros a [k v]. unfold removedChange. simpl. by destruct (newAttrs !! k). }
  by rewrite !push_push.
Qed.

Lemma elem_of_removed t oldAttrs newAttrs c :
  c ∈ omap (removedChange newAttrs) (visit t (map_to_list oldAttrs)) <->
  exists name, c = Remove name
    /\ is_Some (oldAttrs !! name) /\ newAttrs !! name = None.
Proof.
  rewrite list_elem_of_omap. split.
  - intros ([k v] & Hin & Hc). apply visit_elem_of, elem_of_map_to_list in Hin.
    unfold removedChange in Hc. simpl in Hc.
    destruct (newAttrs !! k) eqn:Hn; [done|].
    exists k. by simplify_eq.
  - intros (name & -> & [v Hv] & Hn). exists (name, v). split.
    + by apply visit_elem_of, elem_of_map_to_list.
    + unfold removedChange. simpl. by rewrite Hn.
Qed.

Lemma elem_of_added t oldAttrs newAttrs c :
  c ∈ omap (addedChange oldAttrs) (visit t (map_to_list newAttrs)) <->
  exists name v, c = Add name (maybeJSONStringToArray v)
    /\ newAttrs !! name = Some v /\ oldAttrs !! name = None.
Proof.
  rewrite list_elem_of_omap. split.
  - intros ([k v] & Hin & Hc). apply visit_elem_of, elem_of_map_to_list in Hin.
    unfold addedChange in Hc. simpl in Hc.
    destruct (oldAttrs !! k) eqn:Ho; [done|].
    exists k, v. by simplify_eq.
  - intros (name & v & -> & Hv & Ho). exists (name, v). split.
    + by apply visit_elem_of, elem_of_map_to_list.
    + unfold addedChange. simpl. by rewrite Ho.
Qed.

Lemma elem_of_replaced t oldAttrs newAttrs c :
  c ∈ omap (replacedChange oldAttrs) (visit t (map_to_list newAttrs)) <->
  exists name o v, c = Replace name (maybeJSONStringToArray v)
    /\ oldAttrs !! name = Some o /\ newAttrs !! name = Some v /\ o <> v.
Proof.
  rewrite list_elem_of_omap. split.
  - intros ([k v] & Hin & Hc). apply visit_elem_of, elem_of_map_to_list in Hin.
    unfold replacedChange in Hc. simpl in Hc.
    destruct (oldAttrs !! k) as [o|] eqn:Ho; [|done].
    destruct (String.eqb o v) eqn:He; simpl in Hc; [done|].
    apply String.eqb_neq in He. exists k, o, v. by simplify_eq.
  - intros (name & o & v & -> & Ho & Hv & Hne). exists (name, v). split.
    + by apply visit_elem_of, elem_of_map_to_list.
    + unfold replacedChange. simpl. rewrite Ho.
      apply String.eqb_neq in Hne. by rewrite Hne.
Qed.

(** Each loop appends at most one change per name. *)
Lemma NoDup_deltas (h : string * string -> option ldap.Change) t
    (m : gmap string string) :
  (forall x c, h x = Some c -> ldap.ModType c = x.1) ->
  NoDup (omap h (visit t (map_to_list m))).
Proof.
  intros Hk. apply (omap_NoDup_keyed fst); [done|].
  apply visit_NoDup_fst, NoDup_fst_map_to_list.
Qed.

Lemma removedChange_key newAttrs x c :
  removedChange newAttrs x = Some c -> ldap.ModType c = x.1.
Proof. unfold removedChange. destruct (newAttrs !! x.1); [done|]. by intros [= <-]. Qed.

Lemma addedChange_key oldAttrs x c :
  addedChange oldAttrs x = Some c -> ldap.ModType c = x.1.
Proof. unfold addedChange. destruct (oldAttrs !! x.1); [done|]. by intros [= <-]. Qed.

Lemma replacedChange_key oldAttrs x c :
  replacedChange oldAttrs x = Some c -> ldap.ModType c = x.1.
Proof.
  unfold replacedChange. destruct (oldAttrs !! x.1); [|done].
  destruct (negb _); [|done]. by intros [= <-].
Qed.

(** C3. The map-shaped diff appends to the request a sequence [R ++ A ++ P]
    where [R] holds exactly one [Remove name] for every name of the old
    map that the new map lacks, [A] exactly one
    [Add name (maybeJSONStringToArray value)] for every entry of the new
    map whose name the old map lacks, and [P] exactly one
    [Replace name (maybeJSONStringToArray value)] for every entry of the
    new map whose name the old map binds to a different string; so a name
    bound to the same string in both gets no change, and the removals
    come before the additions, which come before the replacements.  For
    old = {a: 1, b: 2} and new = {b: 2, c: 3} the changes are exactly
    [Remove a] and [Add c [3]]. *)
Theorem map_diff_three_way :
  (forall t1 t2 t3 modify (oldAttrs newAttrs : gmap string string),
     exists R A P,
       computeAndAddDeltas t1 t2 t3 modify oldAttrs newAttrs
       = (push modify (R ++ A ++ P), None)
       /\ NoDup R
       /\ (forall c, c ∈ R <->
             exists name, c = Remove name
               /\ is_Some (oldAttrs !! name) /\ newAttrs !! name = None)
       /\ NoDup A
       /\ (forall c, c ∈ A <->
             exists name v, c = Add name (maybeJSONStringToArray v)
               /\ newAttrs !! name = Some v /\ oldAttrs !! name = None)
       /\ NoDup P
       /\ (forall c, c ∈ P <->
             exists name o v, c = Replace name (maybeJSONStringToArray v)
               /\ oldAttrs !! name = Some o /\ newAttrs !! name = Some v
               /\ o <> v))
  /\ (forall t1 t2 t3 modify,
        computeAndAddDeltas t1 t2 t3 modify
          {[ "a" := "1"; "b" := "2" ]} {[ "b" := "2"; "c" := "3" ]}
        = (push modify [Remove "a"; Add "c" ["3"]], None)).
Proof.
  split.
  - intros. eexists _, _, _. split; [apply map_computeAndAddDeltas_changes|].
    split; [apply NoDup_deltas, removedChange_key|].
    split; [apply elem_of_removed|].
    split; [apply NoDup_deltas, addedChange_key|].
    split; [apply elem_of_added|].
    split; [apply NoDup_deltas, replacedChange_key|].
    apply elem_of_replaced.
  - intros. rewrite map_computeAndAddDeltas_changes. do 2 f_equal.
    set (o := ({[ "a" := "1"; "b" := "2" ]} : gmap string string)).
    set (n := ({[ "b" := "2"; "c" := "3" ]} : gmap string string)).
    rewrite (singleton_of_elems (omap (removedChange n) _) (Remove "a")).
    2:{ apply NoDup_deltas, removedChange_key. }
    2:{ intros c. rewrite elem_of_removed. split.
        - intros (name & -> & [v Hv] & Hn). f_equal. subst o n.
          destruct (decide (name = "a")) as [->|]; [done|].
          destruct (decide (name = "b")) as [->|]; [done|].
          by simplify_map_eq.
        - intros ->. exists "a". by simplify_map_eq. }
    rewrite (singleton_of_elems (omap (addedChange o) _) (Add "c" ["3"])).
    2:{ apply NoDup_deltas, addedChange_key. }
    2:{ intros c. rewrite elem_of_added. split.
        - intros (name & v & -> & Hv & Ho). subst o n.
          destruct (decide (name = "b")) as [->|]; [done|].
          destruct (decide (name = "c")) as [->|]; [by simplify_map_eq|].
          by simplify_map_eq.
        - intros ->. exists "c", "3". by simplify_map_eq. }
    rewrite (nil_of_no_elem (omap (replacedChange o) _)); [done|].
    intros c. rewrite elem_of_replaced.
    intros (name & ov & v & -> & Ho & Hv & Hne). subst o n.
    destruct (decide (name = "b")) as [->|]; [by simplify_map_eq|].
    destruct (decide (name = "c")) as [->|]; by simplify_map_eq.
Qed.

End MapDiff.

(** ** [schema.Set] *)

Section SchemaSet.
Context {A : Type}.
Implicit Types s other : gmap string A.

Lemma omap_lookup_keys s (l : list (string * A)) :
  (forall k v, (k, v) ∈ l -> s !! k = Some v) ->
  omap (fun k => s !! k) (map fst l) = map snd l.
Proof.
  induction l as [|[k v] l IH]; intros H; simpl; [done|].
  rewrite (H k v) by left. f_equal. apply IH. intros k' v' Hin. apply H. by right.
Qed.

(** [List] enumerates the items of the set, each once. *)
Lemma List_perm s : schema.List s ≡ₚ map snd (map_to_list s).
Proof.
  unfold schema.List, schema.listCode.
  rewrite (omap_Permutation _ _ _ (merge_sort_Permutation _ _)).
  rewrite omap_lookup_keys; [done|].
  intros k v. apply elem_of_map_to_list.
Qed.

Lemma elem_of_List s x : x ∈ schema.List s <-> exists k, s !! k = Some x.
Proof.
  rewrite List_perm, list_elem_of_fmap. split.
  - intros ([k v] & -> & Hin). exists k. by apply elem_of_map_to_list.
  - intros (k & Hk). exists (k, x). split; [done|]. by apply elem_of_map_to_list.
Qed.

Lemma List_empty : schema.List (∅ : gmap string A) = [].
Proof. apply Permutation_nil_r. by rewrite List_perm, map_to_list_empty. Qed.


Lemma Difference_self s : schema.Difference s s = ∅.
Proof. apply map_empty_filter. intros k v Hk. simpl. by rewrite Hk. Qed.





Variable F : A -> Z.


Lemma NewSet_singleton x : schema.NewSet F [x] = {[ schema.hash F x := x ]}.
Proof.
  unfold schema.NewSet. simpl. unfold schema.Add. by rewrite lookup_empty.
Qed.

Lemma lookup_Add (item : A) s code x :
  schema.Add F item s !! code = Some x ->
  s !! code = Some x \/ (x = item /\ code = schema.hash F item).
Proof.
  unfold schema.Add. destruct (s !! schema.hash F item) eqn:E; [by left|].
  destruct (decide (schema.hash F item = code)) as [<-|Hne].
  - rewrite lookup_insert_eq. intros [= <-]. by right.
  - rewrite lookup_insert_ne by done. by left.
Qed.



Lemma lookup_fold_Add l s code x :
  fold_left (fun s item => schema.Add F item s) l s !! code = Some x ->
  s !! code = Some x \/ (x ∈ l /\ code = schema.hash F x).
Proof.
  revert s. induction l as [|y l IH]; intros s; simpl; [by left|].
  intros H. apply IH in H as [H|[H ?]].
  - apply lookup_Add in H as [H|[-> ->]]; [by left|]. right. split; [left|done].
  - right. split; [by right|done].
Qed.



(** Every item of the set was added, and sits under its own key. *)
Lemma lookup_NewSet l code x :
  schema.NewSet F l !! code = Some x -> x ∈ l /\ code = schema.hash F x.
Proof.
  intros H. apply lookup_fold_Add in H as [H|H]; [|done].
  by rewrite lookup_empty in H.
Qed.




End SchemaSet.

(** ** [util.Set] *)

Lemma util_List_NoDup t (s : gset string) : NoDup (util.List t s).
Proof. unfold util.List. rewrite (visit_perm t). apply NoDup_elements. Qed.

Lemma elem_of_util_List t (s : gset string) k : k ∈ util.List t s <-> k ∈ s.
Proof. unfold util.List. by rewrite visit_elem_of, elem_of_elements. Qed.

Lemma util_List_empty t : util.List t ∅ = [].
Proof. unfold util.List. by rewrite elements_empty, visit_nil. Qed.


Lemma lone_true a b k : lone a b k = true <-> (k ∉ a) /\ (k ∉ b).
Proof.
  unfold lone, util.Contains. rewrite andb_true_iff, !negb_true_iff.
  by rewrite !bool_decide_eq_false.
Qed.

Lemma lone_false a b k : lone a b k = false <-> k ∈ a \/ k ∈ b.
Proof.
  unfold lone, util.Contains. rewrite andb_false_iff, !negb_false_iff.
  by rewrite !bool_decide_eq_true.
Qed.

(** ** The diff of two sets of attributes *)

Section SetDiff.
Import SetShaped.
Implicit Types os ns : gmap string item.

Lemma namesOf_from (l : list item) (names : gset string) :
  fold_left (fun names '(k, _) => util.Add k names) l names
  = list_to_set (map fst l) ∪ names.
Proof.
  revert names. induction l as [|[k v] l IH]; intros names; simpl.
  - by rewrite (left_id_L ∅ (∪)).
  - rewrite IH. unfold util.Add.
    by rewrite (assoc_L (∪)), (comm_L (∪) (list_to_set _) {[k]}).
Qed.

Lemma elem_of_namesOf (l : list item) k :
  k ∈ namesOf l <-> exists v, (k, v) ∈ l.
Proof.
  unfold namesOf. rewrite namesOf_from. unfold util.NewSet.
  rewrite (right_id_L ∅ (∪)), elem_of_list_to_set, list_elem_of_fmap. split.
  - intros ([k' v] & -> & Hin). by exists v.
  - intros (v & Hin). by exists (k, v).
Qed.

Lemma namesOf_nil : namesOf [] = ∅.
Proof. done. Qed.


Lemma valuesOf_from k (l : list item) (values : list string) :
  fold_left
    (fun values '(mk, mv) => if String.eqb k mk then values ++ [mv] else values)
    l values
  = values ++ map snd (filter (fun x => k = x.1) l).
Proof.
  revert values. induction l as [|[mk mv] l IH]; intros values; simpl.
  - by rewrite app_nil_r.
  - rewrite IH. rewrite filter_cons. simpl.
    destruct (String.eqb_spec k mk) as [->|Hne].
    + rewrite decide_True by done. simpl. by rewrite <- app_assoc.
    + by rewrite decide_False.
Qed.

Lemma valuesOf_filter k (l : list item) :
  valuesOf k l = map snd (filter (fun x => k = x.1) l).
Proof. unfold valuesOf. by rewrite valuesOf_from. Qed.

Lemma elem_of_valuesOf k (l : list item) v :
  v ∈ valuesOf k l <-> (k, v) ∈ l.
Proof.
  rewrite valuesOf_filter, list_elem_of_fmap. split.
  - intros ([k' v'] & -> & Hin). apply list_elem_of_filter in Hin as [Hk Hin].
    simpl in Hk. by subst.
  - intros Hin. exists (k, v). split; [done|]. by apply list_elem_of_filter.
Qed.


(** The values the diff sends for a name are the values the new set holds
    under that name. *)
Lemma elem_of_allValues ns name v :
  v ∈ valuesOf name (schema.List ns) <-> exists code, ns !! code = Some (name, v).
Proof. by rewrite elem_of_valuesOf, elem_of_List. Qed.

(** A loop over names that either appends a change or defers the name to
    [ck]. *)
Lemma fold_classify (test : string -> bool) (h : string -> ldap.Change)
    (f : ldap.ModifyRequest.t * gset string -> string
         -> ldap.ModifyRequest.t * gset string)
    (l : list string) modify ck :
  (forall modify ck k,
     f (modify, ck) k = if test k then (push modify [h k], ck)
                        else (modify, util.Add k ck)) ->
  fold_left f l (modify, ck)
  = (push modify (map h (filter (fun k => test k = true) l)),
     list_to_set (filter (fun k => test k = false) l) ∪ ck).
Proof.
  intros Hf. revert modify ck. induction l as [|k l IH]; intros modify ck; simpl.
  - rewrite push_nil. f_equal. by rewrite (left_id_L ∅ (∪)).
  - rewrite Hf, !filter_cons. destruct (test k) eqn:Ht.
    + rewrite IH, push_push. rewrite decide_True by done.
      by rewrite decide_False.
    + rewrite IH. rewrite decide_False by done. rewrite decide_True by done.
      f_equal. unfold util.Add. simpl.
      by rewrite (assoc_L (∪)), (comm_L (∪) (list_to_set _) {[k]}).
Qed.

Lemma fold_replace (h : string -> ldap.Change)
    (f : ldap.ModifyRequest.t -> string -> ldap.ModifyRequest.t)
    (l : list string) modify :
  (forall modify k, f modify k = push modify [h k]) ->
  fold_left f l modify = push modify (map h l).
Proof.
  intros Hf. revert modify. induction l as [|k l IH]; intros modify; simpl.
  - by rewrite push_nil.
  - by rewrite IH, Hf, push_push.
Qed.

Lemma elem_of_changedNames os ns k :
  k ∈ changedNames os ns <->
  (k ∈ removedNames os ns /\ (k ∈ addedNames os ns \/ k ∈ keptNames os ns))
  \/ (k ∈ addedNames os ns /\ (k ∈ removedNames os ns \/ k ∈ keptNames os ns)).
Proof.
  unfold changedNames. rewrite elem_of_union, !elem_of_filter. tauto.
Qed.

(** The request after [computeAndAddDeltas]: it removes the names that are
    only among the removed ones, adds the names that are only among the
    added ones, and replaces the names of [changedNames]. *)
Lemma set_computeAndAddDeltas_changes t_rk t_ak t_ck modify os ns :
  computeAndAddDeltas t_rk t_ak t_ck modify os ns =
  (push modify
     (map Remove
        (filter (fun k => lone (addedNames os ns) (keptNames os ns) k = true)
           (util.List t_rk (removedNames os ns)))
      ++ map (fun k => Add k (valuesOf k (schema.List ns)))
           (filter (fun k => lone (removedNames os ns) (keptNames os ns) k = true)
              (util.List t_ak (addedNames os ns)))
      ++ map (fun k => Replace k (valuesOf k (schema.List ns)))
           (util.List t_ck (changedNames os ns))),
   None).
Proof.
  unfold computeAndAddDeltas.
  fold (removedNames os ns) (addedNames os ns) (keptNames os ns).
  rewrite (fold_classify (lone (addedNames os ns) (keptNames os ns)) Remove) by done.
  rewrite (fold_classify (lone (removedNames os ns) (keptNames os ns))
             (fun k => Add k (valuesOf k (schema.List ns)))) by done.
  rewrite (fold_replace (fun k => Replace k (valuesOf k (schema.List ns)))) by done.
  rewrite !push_push. unfold util.NewSet.
  set (ck := list_to_set _ ∪ (list_to_set _ ∪ ∅)).
  assert (ck = changedNames os ns) as ->; [|done].
  subst ck. apply set_eq. intros k.
  rewrite elem_of_changedNames.
  rewrite !elem_of_union, !elem_of_list_to_set, !list_elem_of_filter.
  rewrite !elem_of_util_List, !lone_false, elem_of_empty. tauto.
Qed.

Lemma elem_of_lone t a b c k :
  k ∈ filter (fun k => lone b c k = true) (util.List t a)
  <-> k ∈ a /\ (k ∉ b) /\ (k ∉ c).
Proof. by rewrite list_elem_of_filter, elem_of_util_List, lone_true, (comm and). Qed.

Lemma lone_NoDup t a b c :
  NoDup (filter (fun k => lone b c k = true) (util.List t a)).
Proof. apply NoDup_filter, util_List_NoDup. Qed.


End SetDiff.

Section SetDiffClaims.
Import SetShaped.
Implicit Types os ns : gmap string item.








End SetDiffClaims.

(** ** Diffing a set of attributes against itself *)

(** C6. Diffing declared attributes against themselves appends no change
    to the request, for the map-shaped and for the set-shaped
    representation: [diff(X, X) = []]. *)
Theorem diff_of_equal_attributes_is_empty :
  (forall t1 t2 t3 modify (X : gmap string string),
      MapShaped.computeAndAddDeltas t1 t2 t3 modify X X = (modify, None))
  /\ (forall t_rk t_ak t_ck modify (X : gmap string SetShaped.item),
      SetShaped.computeAndAddDeltas t_rk t_ak t_ck modify X X = (modify, None)).
Proof.
  split.
  - intros. rewrite map_computeAndAddDeltas_changes.
    rewrite (nil_of_no_elem (omap (removedChange X) _)).
    2:{ intros c. rewrite elem_of_removed.
        intros (name & _ & [v Hv] & Hn). congruence. }
    rewrite (nil_of_no_elem (omap (addedChange X) _)).
    2:{ intros c. rewrite elem_of_added.
        intros (name & v & _ & Hv & Hn). congruence. }
    rewrite (nil_of_no_elem (omap (replacedChange X) _)).
    2:{ intros c. rewrite elem_of_replaced.
        intros (name & o & v & _ & Ho & Hv & Hne). congruence. }
    by rewrite push_nil.
  - intros. rewrite set_computeAndAddDeltas_changes.
    assert (removedNames X X = ∅) as Hr.
    { unfold removedNames. by rewrite Difference_self, List_empty. }
    assert (addedNames X X = ∅) as Ha.
    { unfold addedNames. by rewrite Difference_self, List_empty. }
    assert (changedNames X X = ∅) as Hc.
    { apply set_eq. intros k. rewrite elem_of_changedNames, Hr, Ha.
      split; [|by intros ?%not_elem_of_empty].
      by intros [[?%not_elem_of_empty _]|[?%not_elem_of_empty _]]. }
    rewrite Hr, Ha, Hc, !util_List_empty. simpl. by rewrite push_nil.
Qed.

(** ** Trimming and the bracket test *)

Lemma prefix_empty s : String.prefix EmptyString s = true.
Proof. by destruct s. Qed.

Lemma HasPrefix_app a suffix : Strings.HasPrefix (a +:+ suffix) a = true.
Proof.
  unfold Strings.HasPrefix. induction a as [|c a IH]; simpl.
  - apply prefix_empty.
  - by destruct (ascii_dec c c).
Qed.

Lemma HasPrefix_bracket s :
  Strings.HasPrefix s "[" = match s with
                            | String c _ => bool_decide (c = "["%char)
                            | EmptyString => false
                            end.
Proof.
  unfold Strings.HasPrefix. destruct s as [|c t]; [done|].
  cbn [String.prefix]. rewrite prefix_empty.
  destruct (ascii_dec "[" c) as [E|Hne]; symmetry.
  - by apply bool_decide_eq_true_2.
  - apply bool_decide_eq_false_2. congruence.
Qed.

Lemma HasPrefix_take k s :
  (0 < k)%nat ->
  Strings.HasPrefix (take_bytes k s) "[" = Strings.HasPrefix s "[".
Proof.
  intros Hk. rewrite !HasPrefix_bracket. destruct k; [lia|]. by destruct s.
Qed.

(** A string that starts with a bracket is not a single space: its last
    rune, when it is a space, starts after the bracket. *)
Lemma DecodeLast_bracket t r size :
  utf8.DecodeLastRuneInString (String "[" t) = (r, size) ->
  unicode.IsSpace r = true ->
  (size < String.length (String "[" t))%nat.
Proof.
  unfold utf8.DecodeLastRuneInString.
  set (s := String "[" t). set (e := Z.of_nat (String.length s)).
  assert (1 <= e) as He by (subst e s; simpl; lia).
  destruct (e =? 0) eqn:E0; [apply Z.eqb_eq in E0; lia|].
  destruct (String.get (Z.to_nat (e - 1)) s) as [c|] eqn:Hget.
  2:{ intros [= <- <-]. done. }
  destruct (byte_val c <? utf8.RuneSelf) eqn:Hc.
  - intros [= <- <-] Hsp.
    destruct (decide (e = 1)) as [E1|E1]; [|lia].
    rewrite E1 in Hget. simpl in Hget. by simplify_eq.
  - set (start := Z.max 0 _).
    destruct (utf8.DecodeRuneInString (drop_bytes (Z.to_nat start) s))
      as [r' size'] eqn:Hd.
    destruct (start + Z.of_nat size' =? e) eqn:Hse.
    + intros [= <- <-] Hsp. apply Z.eqb_eq in Hse.
      destruct (decide (start = 0)) as [S0|S0]; [|subst start; lia].
      rewrite S0 in Hd. simpl in Hd. by simplify_eq.
    + intros [= <- <-] Hsp. done.
Qed.

Lemma TrimRightFunc_upto_bracket n s :
  Strings.HasPrefix (Strings.TrimRightFunc_upto unicode.IsSpace n s) "["
  = Strings.HasPrefix s "[".
Proof.
  revert s. induction n as [|n IH]; intros s; simpl; [done|].
  destruct s as [|c t]; [done|].
  destruct (utf8.DecodeLastRuneInString (String c t)) as [r size] eqn:Hd.
  destruct (unicode.IsSpace r) eqn:Hsp; [|done].
  rewrite IH. destruct (decide (c = "["%char)) as [->|Hne].
  - apply HasPrefix_take. apply DecodeLast_bracket in Hd; [|done]. simpl in *. lia.
  - rewrite !HasPrefix_bracket. rewrite (bool_decide_eq_false_2 _ Hne).
    destruct (String.length (String c t) - size)%nat; simpl; [done|].
    by rewrite bool_decide_eq_false_2.
Qed.

(** The bracket test looks at the first byte after the leading spaces
    only: that [TrimSpace] trims the trailing spaces too does not change
    it. *)
Lemma TrimSpace_bracket s :
  Strings.HasPrefix (Strings.TrimSpace s) "["
  = Strings.HasPrefix (Strings.TrimLeftFunc s unicode.IsSpace) "[".
Proof. apply TrimRightFunc_upto_bracket. Qed.

Lemma Marshal_bracket values :
  Strings.HasPrefix (Strings.TrimSpace (json.Marshal values)) "[" = true.
Proof.
  rewrite TrimSpace_bracket. unfold json.Marshal, Strings.TrimLeftFunc. simpl.
  apply prefix_empty.
Qed.

(** ** Decoding a declared value *)

Section ParseValue.
Import MapShaped.

(** C5. [maybeJSONStringToArray raw] is the decoded array when [raw],
    after its leading white space, begins with a bracket and decodes as a
    JSON array of strings; in every other case (no leading bracket, or a
    text that does not decode) it is the one-element sequence [[raw]],
    with [raw] unchanged.  The function has no error result: a text that
    does not decode is not reported.  The bracket test of the code, on
    [TrimSpace raw], is the test on [raw] without its leading spaces. *)
Theorem maybeJSONStringToArray_decodes_or_falls_back :
  forall raw : string,
    Strings.HasPrefix (Strings.TrimSpace raw) "["
      = Strings.HasPrefix (Strings.TrimLeftFunc raw unicode.IsSpace) "["
    /\ (forall arr,
          Strings.HasPrefix (Strings.TrimLeftFunc raw unicode.IsSpace) "[" = true ->
          json.Unmarshal raw = Some arr ->
          maybeJSONStringToArray raw = arr)
    /\ (Strings.HasPrefix (Strings.TrimLeftFunc raw unicode.IsSpace) "[" = true ->
        json.Unmarshal raw = None ->
        maybeJSONStringToArray raw = [raw])
    /\ (Strings.HasPrefix (Strings.TrimLeftFunc raw unicode.IsSpace) "[" = false ->
        maybeJSONStringToArray raw = [raw]).
Proof.
  intros raw. split; [apply TrimSpace_bracket|].
  unfold maybeJSONStringToArray. rewrite TrimSpace_bracket.
  repeat split.
  - intros arr -> ->. done.
  - intros -> ->. done.
  - intros ->. done.
Qed.

Lemma maybeJSONStringToArray_witness :
  maybeJSONStringToArray (" [" +:+ quoted "a" +:+ ", " +:+ quoted "b" +:+ "]")
    = ["a"; "b"]
  /\ maybeJSONStringToArray "[not json" = ["[not json"]
  /\ maybeJSONStringToArray "plain" = ["plain"].
Proof.
  destruct (maybeJSONStringToArray_decodes_or_falls_back
              (" [" +:+ quoted "a" +:+ ", " +:+ quoted "b" +:+ "]")) as (_ & H1 & _).
  destruct (maybeJSONStringToArray_decodes_or_falls_back "[not json")
    as (_ & _ & H2 & _).
  destruct (maybeJSONStringToArray_decodes_or_falls_back "plain")
    as (_ & _ & _ & H3).
  split; [apply H1; reflexivity|].
  split; [apply H2; reflexivity|apply H3; reflexivity].
Defined.

(** C10. [maybeJSONStringToArray] returns the empty sequence on the text
    of the empty JSON array, so the map-shaped diff sends [Add name []]
    for a new attribute declared as that text, and [Replace name []] for
    an attribute whose declaration changes to it. *)
Theorem maybeJSONStringToArray_can_be_empty :
  maybeJSONStringToArray "[]" = []
  /\ (forall t1 t2 t3 modify name,
        computeAndAddDeltas t1 t2 t3 modify ∅ {[ name := "[]" ]}
        = (push modify [Add name []], None))
  /\ (forall t1 t2 t3 modify name oldValue,
        oldValue <> "[]" ->
        computeAndAddDeltas t1 t2 t3 modify {[ name := oldValue ]} {[ name := "[]" ]}
        = (push modify [Replace name []], None)).
Proof.
  split; [done|]. split.
  - intros. rewrite map_computeAndAddDeltas_changes.
    rewrite map_to_list_empty, map_to_list_singleton, visit_nil, !visit_singleton.
    simpl. unfold addedChange, replacedChange. simpl.
    by rewrite lookup_empty.
  - intros * Hne. rewrite map_computeAndAddDeltas_changes.
    rewrite !map_to_list_singleton, !visit_singleton.
    simpl. unfold removedChange, addedChange, replacedChange. simpl.
    rewrite !lookup_singleton_eq. apply String.eqb_neq in Hne. by rewrite Hne.
Qed.

Lemma empty_value_list_witness :
  computeAndAddDeltas in_order in_order in_order (ldap.ModifyRequest.New sample_dn)
    {[ "mail" := "a@example.org" ]} {[ "mail" := "[]" ]}
  = (push (ldap.ModifyRequest.New sample_dn) [Replace "mail" []], None).
Proof.
  destruct maybeJSONStringToArray_can_be_empty as (_ & _ & H).
  apply H. discriminate.
Defined.

End ParseValue.

(** ** The projection of an entry onto a map of attributes *)

Section MapProjection.
Import MapShaped.

Lemma stringListContains_spec needle haystack :
  stringListContains needle haystack = true <-> needle ∈ haystack.
Proof.
  induction haystack as [|h l IH]; simpl.
  - split; [done|by inversion 1].
  - rewrite elem_of_cons. destruct (String.eqb_spec needle h) as [->|Hne].
    + by split; [left|].
    + rewrite IH. split; [by right|]. by intros [|].
Qed.

Lemma attributesToSkip_eq d :
  attributesToSkip d = "objectClass" :: skip_attributes (new d).
Proof. unfold attributesToSkip. by rewrite fold_append. Qed.

Lemma readAttribute_kept dn skip attrs a :
  mapKept dn skip a ->
  readAttribute dn skip attrs a = <[ldap.Name a := encoded (ldap.Values a)]> attrs.
Proof.
  intros [Hs Hr]. unfold readAttribute.
  destruct (stringListContains _ _) eqn:E.
  { by apply stringListContains_spec in E. }
  unfold rdnLike in Hr.
  destruct (ldap.Values a) as [|v [|w l]]; try done. simpl.
  destruct (Strings.HasPrefix _ _) eqn:E'; [|done].
  destruct Hr. by exists v.
Qed.

Lemma readAttribute_skipped dn skip attrs a :
  ~ mapKept dn skip a -> readAttribute dn skip attrs a = attrs.
Proof.
  intros Hk. unfold readAttribute.
  destruct (stringListContains _ _) eqn:E; [done|].
  assert (ldap.Name a ∉ skip) as Hs.
  { intros Hin. apply stringListContains_spec in Hin. congruence. }
  assert (rdnLike dn a) as (v & Hv & Hp).
  { destruct (decide (rdnLike dn a)); [done|]. destruct Hk. by split. }
  by rewrite Hv, Hp.
Qed.

Lemma map_readAttributes_from_lookup dn skip l attrs name s :
  fold_left (readAttribute dn skip) l attrs !! name = Some s ->
  attrs !! name = Some s
  \/ exists a, a ∈ l /\ ldap.Name a = name /\ mapKept dn skip a
               /\ s = encoded (ldap.Values a).
Proof.
  revert attrs. induction l as [|a l IH]; intros attrs; simpl; [by left|].
  intros H. apply IH in H as [H|(b & Hb & ?)].
  - destruct (decide (mapKept dn skip a)) as [Hk|Hk].
    + rewrite readAttribute_kept in H by done.
      destruct (decide (ldap.Name a = name)) as [<-|Hne].
      * rewrite lookup_insert_eq in H. right. exists a.
        split; [left|]. by simplify_eq.
      * rewrite lookup_insert_ne in H by done. by left.
    + rewrite readAttribute_skipped in H by done. by left.
  - right. exists b. split; [by right|done].
Qed.

(** Every entry of the declared map stems from an attribute the
    projection keeps. *)
Lemma map_readAttributes_lookup dn skip l name s :
  readAttributes dn skip l !! name = Some s ->
  exists a, a ∈ l /\ ldap.Name a = name /\ mapKept dn skip a
            /\ s = encoded (ldap.Values a).
Proof.
  intros H. apply map_readAttributes_from_lookup in H as [H|H]; [|done].
  by rewrite lookup_empty in H.
Qed.

Lemma map_readAttributes_from_other dn skip l attrs name :
  name ∉ map ldap.Name l ->
  fold_left (readAttribute dn skip) l attrs !! name = attrs !! name.
Proof.
  revert attrs. induction l as [|a l IH]; intros attrs Hn; simpl; [done|].
  rewrite IH by (intros ?; apply Hn; by right).
  destruct (decide (mapKept dn skip a)) as [Hk|Hk].
  - rewrite readAttribute_kept by done. apply lookup_insert_ne.
    intros <-. apply Hn. left.
  - by rewrite readAttribute_skipped.
Qed.

Lemma map_readAttributes_from_unique dn skip l attrs a :
  NoDup (map ldap.Name l) -> a ∈ l ->
  fold_left (readAttribute dn skip) l attrs !! ldap.Name a
  = if decide (mapKept dn skip a) then Some (encoded (ldap.Values a))
    else attrs !! ldap.Name a.
Proof.
  revert attrs. induction l as [|b l IH]; intros attrs Hnd Hin; [by inversion Hin|].
  simpl in Hnd. apply NoDup_cons in Hnd as [Hb Hnd]. simpl.
  apply elem_of_cons in Hin as [->|Hin].
  - rewrite map_readAttributes_from_other by done.
    destruct (decide (mapKept dn skip b)) as [Hk|Hk].
    + rewrite readAttribute_kept by done. apply lookup_insert_eq.
    + by rewrite readAttribute_skipped.
  - rewrite IH by done. destruct (decide (mapKept dn skip a)); [done|].
    assert (ldap.Name b <> ldap.Name a) as Hne.
    { intros E. apply Hb. rewrite E. by apply list_elem_of_fmap_2. }
    destruct (decide (mapKept dn skip b)) as [Hk|Hk].
    + rewrite readAttribute_kept by done. by apply lookup_insert_ne.
    + by rewrite readAttribute_skipped.
Qed.

(** With distinct attribute names, the declared map holds the encoding of
    each attribute the projection keeps, and nothing for the others. *)
Lemma map_readAttributes_unique dn skip l a :
  NoDup (map ldap.Name l) -> a ∈ l ->
  readAttributes dn skip l !! ldap.Name a
  = if decide (mapKept dn skip a) then Some (encoded (ldap.Values a)) else None.
Proof.
  intros Hnd Hin. unfold readAttributes.
  rewrite map_readAttributes_from_unique by done. by rewrite lookup_empty.
Qed.

(** What [readLDAPObject] returns when the search finds an entry. *)
Lemma map_readLDAPObject_found d client updateState sr entry rest :
  ldap.Search client (readRequest (dn (new d))) = ldap.Ok sr ->
  ldap.Entries sr = entry :: rest ->
  exists d',
    readLDAPObject d client updateState = Returns (d', None)
    /\ Id d' = dn (new d)
    /\ attributes (new d')
       = readAttributes (dn (new d)) ("objectClass" :: skip_attributes (new d))
           (ldap.Entry.Attributes entry).
Proof.
  intros Hs He. unfold readLDAPObject. rewrite Hs, He.
  eexists. split; [done|]. simpl. by rewrite attributesToSkip_eq.
Qed.

End MapProjection.

(** ** The projection of an entry onto a set of attributes *)

Section SetProjection.
Import SetShaped.
Variable Quote : string -> string.
Variable ChecksumIEEE : string -> Z.

Lemma keptItems_cons dn a l :
  keptItems dn (a :: l) = keptItems dn [a] ++ keptItems dn l.
Proof. unfold keptItems. simpl. by rewrite app_nil_r. Qed.

Lemma fold_Add_values name values (set : gmap string item) :
  fold_left
    (fun set value => schema.Add (attributeHash Quote ChecksumIEEE) (name, value) set)
    values set
  = fold_left (fun s item => schema.Add (attributeHash Quote ChecksumIEEE) item s)
      (map (fun value => (name, value)) values) set.
Proof.
  revert set. induction values as [|v l IH]; intros set; simpl; [done|]. by rewrite IH.
Qed.

Lemma readAttribute_items dn set a :
  readAttribute Quote ChecksumIEEE dn set a
  = fold_left (fun s item => schema.Add (attributeHash Quote ChecksumIEEE) item s)
      (keptItems dn [a]) set.
Proof.
  unfold readAttribute, keptItems. simpl. rewrite app_nil_r.
  destruct (String.eqb_spec (ldap.Name a) "objectClass") as [E|E].
  { rewrite decide_False; [done|]. by intros [? _]. }
  destruct (decide (rdnLike dn a)) as [(v & Hv & Hp)|Hr].
  { rewrite decide_False by (intros [_ H]; apply H; by exists v).
    by rewrite Hv, Hp. }
  rewrite decide_True by done.
  assert (match ldap.Values a with
          | [value] => Strings.HasPrefix dn (Sprintf_eq (ldap.Name a) value)
          | _ => false
          end = false) as ->.
  { destruct (ldap.Values a) as [|v [|w l]] eqn:Hv; try done.
    destruct (Strings.HasPrefix _ _) eqn:Hp; [|done]. destruct Hr. by exists v. }
  apply fold_Add_values.
Qed.

(** The set the projection builds is the set of the entries it keeps. *)
Lemma set_readAttributes_NewSet dn l :
  readAttributes Quote ChecksumIEEE dn l
  = schema.NewSet (attributeHash Quote ChecksumIEEE) (keptItems dn l).
Proof.
  unfold readAttributes, schema.NewSet. generalize (∅ : gmap string item).
  induction l as [|a l IH]; intros set; [done|].
  rewrite (keptItems_cons dn a l), fold_left_app. simpl.
  by rewrite IH, readAttribute_items.
Qed.

Lemma elem_of_keptItems dn l x :
  x ∈ keptItems dn l <->
  exists a, a ∈ l /\ setKept dn a /\ x.1 = ldap.Name a /\ x.2 ∈ ldap.Values a.
Proof.
  unfold keptItems. rewrite list_elem_of_In, in_flat_map.
  setoid_rewrite <- list_elem_of_In. split.
  - intros (a & Ha & Hx). exists a. split; [done|].
    destruct (decide (setKept dn a)); [|by inversion Hx].
    apply list_elem_of_fmap in Hx as (v & -> & Hv). done.
  - intros (a & Ha & Hk & Hn & Hv). exists a. split; [done|].
    rewrite decide_True by done. apply list_elem_of_fmap. exists x.2.
    split; [|done]. destruct x. simpl in *. by subst.
Qed.

Lemma set_readLDAPObject_found d client updateState sr entry rest :
  ldap.Search client (readRequest (dn (new d))) = ldap.Ok sr ->
  ldap.Entries sr = entry :: rest ->
  exists d',
    readLDAPObject Quote ChecksumIEEE d client updateState = Returns (d', None)
    /\ Id d' = dn (new d)
    /\ attributes (new d')
       = readAttributes Quote ChecksumIEEE (dn (new d)) (ldap.Entry.Attributes entry).
Proof.
  intros Hs He. unfold readLDAPObject. rewrite Hs, He.
  eexists. by split.
Qed.

End SetProjection.

(** ** What the projection leaves out *)

(** When the search finds an entry, the attributes [readLDAPObject]
    declares never hold the attribute [objectClass], and every entry they
    hold stems from an attribute of the entry that is neither [objectClass]
    nor single-valued with [name=value] a prefix of the DN the resource
    declares; with distinct attribute names, a single-valued attribute
    with [name=value] a prefix of the declared DN has no entry.  The DN of
    the entry itself plays no part.  This holds for the map and for the
    set. *)
Theorem declared_projection_omits_objectClass_and_rdn :
  (forall d client updateState sr entry rest,
      ldap.Search client (MapShaped.readRequest (MapShaped.dn (MapShaped.new d)))
        = ldap.Ok sr ->
      ldap.Entries sr = entry :: rest ->
      exists d',
        MapShaped.readLDAPObject d client updateState = Returns (d', None)
        /\ MapShaped.attributes (MapShaped.new d') !! "objectClass" = None
        /\ (forall name s,
              MapShaped.attributes (MapShaped.new d') !! name = Some s ->
              exists a, a ∈ ldap.Entry.Attributes entry /\ ldap.Name a = name
                /\ name <> "objectClass"
                /\ ~ rdnLike (MapShaped.dn (MapShaped.new d)) a)
        /\ (NoDup (map ldap.Name (ldap.Entry.Attributes entry)) ->
            forall a value,
              a ∈ ldap.Entry.Attributes entry ->
              ldap.Values a = [value] ->
              Strings.HasPrefix (MapShaped.dn (MapShaped.new d))
                (Sprintf_eq (ldap.Name a) value) = true ->
              MapShaped.attributes (MapShaped.new d') !! ldap.Name a = None))
  /\ (forall Quote ChecksumIEEE d client updateState sr entry rest,
      ldap.Search client (SetShaped.readRequest (SetShaped.dn (SetShaped.new d)))
        = ldap.Ok sr ->
      ldap.Entries sr = entry :: rest ->
      exists d',
        SetShaped.readLDAPObject Quote ChecksumIEEE d client updateState
          = Returns (d', None)
        /\ (forall code value,
              SetShaped.attributes (SetShaped.new d') !! code
                <> Some ("objectClass", value))
        /\ (forall code name value,
              SetShaped.attributes (SetShaped.new d') !! code = Some (name, value) ->
              exists a, a ∈ ldap.Entry.Attributes entry /\ ldap.Name a = name
                /\ value ∈ ldap.Values a
                /\ name <> "objectClass"
                /\ ~ rdnLike (SetShaped.dn (SetShaped.new d)) a)
        /\ (NoDup (map ldap.Name (ldap.Entry.Attributes entry)) ->
            forall a value,
              a ∈ ldap.Entry.Attributes entry ->
              ldap.Values a = [value] ->
              Strings.HasPrefix (SetShaped.dn (SetShaped.new d))
                (Sprintf_eq (ldap.Name a) value) = true ->
              forall code value',
                SetShaped.attributes (SetShaped.new d') !! code
                  <> Some (ldap.Name a, value'))).
Proof.
  split.
  - intros * Hs He.
    destruct (map_readLDAPObject_found d client updateState sr entry rest Hs He)
      as (d' & Hd & _ & Ha).
    exists d'. split; [done|]. rewrite Ha.
    assert (forall name s,
      MapShaped.readAttributes (MapShaped.dn (MapShaped.new d))
        ("objectClass" :: MapShaped.skip_attributes (MapShaped.new d))
        (ldap.Entry.Attributes entry) !! name = Some s ->
      exists a, a ∈ ldap.Entry.Attributes entry /\ ldap.Name a = name
        /\ name <> "objectClass"
        /\ ~ rdnLike (MapShaped.dn (MapShaped.new d)) a) as Hb.
    { intros name s H. apply map_readAttributes_lookup in H
        as (a & Hin & Hn & [Hk Hr] & _).
      exists a. repeat split; try done. intros ->. apply Hk. rewrite Hn. left. }
    split; [|split; [done|]].
    + destruct (MapShaped.readAttributes _ _ _ !! "objectClass") as [s|] eqn:E;
        [|done].
      apply Hb in E as (a & _ & _ & Hne & _). done.
    + intros Hnd a value Hin Hv Hp.
      rewrite map_readAttributes_unique by done.
      rewrite decide_False; [done|]. intros [_ Hr]. apply Hr. by exists value.
  - intros * Hs He.
    destruct (set_readLDAPObject_found Quote ChecksumIEEE d client updateState
                sr entry rest Hs He) as (d' & Hd & _ & Ha).
    exists d'. split; [done|]. rewrite Ha, set_readAttributes_NewSet.
    assert (forall code name value,
      schema.NewSet (SetShaped.attributeHash Quote ChecksumIEEE)
        (keptItems (SetShaped.dn (SetShaped.new d)) (ldap.Entry.Attributes entry))
        !! code = Some (name, value) ->
      exists a, a ∈ ldap.Entry.Attributes entry /\ ldap.Name a = name
        /\ value ∈ ldap.Values a /\ name <> "objectClass"
        /\ ~ rdnLike (SetShaped.dn (SetShaped.new d)) a) as Hb.
    { intros code name value H. apply lookup_NewSet in H as [H _].
      apply elem_of_keptItems in H as (a & Hin & [Hk Hr] & Hn & Hv).
      simpl in *. exists a. subst name. done. }
    split; [|split; [done|]].
    + intros code value H. apply Hb in H as (a & _ & _ & _ & Hne & _). done.
    + intros Hnd a value Hin Hv Hp code value' H.
      apply Hb in H as (b & Hb' & Hn & _ & _ & Hr).
      assert (b = a) as -> by (by apply (NoDup_same_name _ b a Hnd)).
      apply Hr. by exists value.
Qed.

Lemma declared_projection_witness :
  (exists d',
     MapShaped.readLDAPObject sample_map_data sample_server true = Returns (d', None)
     /\ MapShaped.attributes (MapShaped.new d') !! "objectClass" = None
     /\ MapShaped.attributes (MapShaped.new d') !! "cn" = None)
  /\ (exists d',
     SetShaped.readLDAPObject strconv.Quote crc32.ChecksumIEEE
       sample_set_data sample_server true = Returns (d', None)
     /\ forall code value,
          SetShaped.attributes (SetShaped.new d') !! code <> Some ("cn", value)).
Proof.
  destruct declared_projection_omits_objectClass_and_rdn as [Hm Hs]. split.
  - destruct (Hm sample_map_data sample_server true _ sample_entry [] eq_refl eq_refl)
      as (d' & Hd & Hoc & _ & Hrdn).
    exists d'. split; [exact Hd|]. split; [exact Hoc|].
    apply (Hrdn ltac:(by_computation) (ldap.NewEntryAttribute "cn" ["admin"]) "admin");
      [apply list_elem_of_In; simpl; tauto|reflexivity|reflexivity].
  - destruct (Hs strconv.Quote crc32.ChecksumIEEE sample_set_data sample_server true
                _ sample_entry [] eq_refl eq_refl) as (d' & Hd & _ & _ & Hrdn).
    exists d'. split; [exact Hd|].
    apply (Hrdn ltac:(by_computation) (ldap.NewEntryAttribute "cn" ["admin"]) "admin");
      [apply list_elem_of_In; simpl; tauto|reflexivity|reflexivity].
Defined.

(** C7. The projection tests [name=value] against the DN the resource
    declares ([d.Get("dn")]) and never reads the DN of the entry the search
    returns.  The resource declares [CN=admin,dc=example,dc=org]; the
    directory holds the entry as [cn=admin,dc=example,dc=org], with the
    attributes [objectClass], [cn = admin] and [sn = Admin].  The single
    value of [cn] as [cn=admin] is a prefix of the DN of the entry, and is
    its leading RDN; yet both versions of [readLDAPObject] declare [cn] as
    an ordinary attribute, where the code says of this very test "we don't
    treat the RDN as an ordinary attribute". *)
Theorem projection_emits_the_rdn_of_the_entry :
  Strings.HasPrefix (ldap.Entry.DN respelled_entry) (Sprintf_eq "cn" "admin") = true
  /\ leadingRDN (ldap.Entry.DN respelled_entry) = Sprintf_eq "cn" "admin"
  /\ ldap.Entry.GetAttributeValues respelled_entry "cn" = ["admin"]
  /\ (exists d',
        MapShaped.readLDAPObject respelled_map_data respelled_server true
          = Returns (d', None)
        /\ MapShaped.attributes (MapShaped.new d') !! "cn" = Some "admin")
  /\ (exists d',
        SetShaped.readLDAPObject strconv.Quote crc32.ChecksumIEEE
          respelled_set_data respelled_server true = Returns (d', None)
        /\ ("cn", "admin") ∈ schema.List (SetShaped.attributes (SetShaped.new d'))).
Proof.
  split; [reflexivity|]. split; [reflexivity|]. split; [reflexivity|]. split.
  - destruct (map_readLDAPObject_found respelled_map_data respelled_server true
                {| ldap.Entries := [respelled_entry] |} respelled_entry []
                eq_refl eq_refl) as (d' & Hd & _ & Ha).
    exists d'. split; [exact Hd|]. rewrite Ha. vm_compute. reflexivity.
  - destruct (set_readLDAPObject_found strconv.Quote crc32.ChecksumIEEE
                respelled_set_data respelled_server true
                {| ldap.Entries := [respelled_entry] |} respelled_entry []
                eq_refl eq_refl) as (d' & Hd & _ & Ha).
    exists d'. split; [exact Hd|]. rewrite Ha.
    apply elem_of_List. exists (schema.hash sample_hash ("cn", "admin")).
    vm_compute. reflexivity.
Qed.

(** C9. The test that leaves the RDN out is a prefix test on the whole
    DN: a single-valued attribute is left out whenever [name=value] is a
    prefix of the DN, whatever follows it.  With the DN
    [cn=foobar,dc=example], whose leading component is [cn=foobar], the
    attribute [cn] with the single value [foo] is left out of the declared
    attributes, for the map and for the set. *)
Theorem rdn_test_is_a_prefix_test :
  (forall dn skip attrs name value suffix,
      dn = Sprintf_eq name value +:+ suffix ->
      MapShaped.readAttribute dn skip attrs
        {| ldap.Name := name; ldap.Values := [value] |} = attrs)
  /\ (forall Quote ChecksumIEEE dn set name value suffix,
      dn = Sprintf_eq name value +:+ suffix ->
      SetShaped.readAttribute Quote ChecksumIEEE dn set
        {| ldap.Name := name; ldap.Values := [value] |} = set)
  /\ leadingRDN "cn=foobar,dc=example" = "cn=foobar"
  /\ leadingRDN "cn=foobar,dc=example" <> Sprintf_eq "cn" "foo"
  /\ (forall d client updateState,
      MapShaped.dn (MapShaped.new d) = "cn=foobar,dc=example" ->
      ldap.Search client (MapShaped.readRequest "cn=foobar,dc=example")
        = ldap.Ok {| ldap.Entries :=
            [ldap.Entry.New "cn=foobar,dc=example"
               [ldap.NewEntryAttribute "cn" ["foo"]]] |} ->
      exists d',
        MapShaped.readLDAPObject d client updateState = Returns (d', None)
        /\ MapShaped.attributes (MapShaped.new d') = ∅)
  /\ (forall Quote ChecksumIEEE d client updateState,
      SetShaped.dn (SetShaped.new d) = "cn=foobar,dc=example" ->
      ldap.Search client (SetShaped.readRequest "cn=foobar,dc=example")
        = ldap.Ok {| ldap.Entries :=
            [ldap.Entry.New "cn=foobar,dc=example"
               [ldap.NewEntryAttribute "cn" ["foo"]]] |} ->
      exists d',
        SetShaped.readLDAPObject Quote ChecksumIEEE d client updateState
          = Returns (d', None)
        /\ SetShaped.attributes (SetShaped.new d') = ∅).
Proof.
  assert (forall dn skip attrs name value suffix,
      dn = Sprintf_eq name value +:+ suffix ->
      MapShaped.readAttribute dn skip attrs
        {| ldap.Name := name; ldap.Values := [value] |} = attrs) as Hm.
  { intros * ->. unfold MapShaped.readAttribute. simpl.
    rewrite HasPrefix_app. by destruct (MapShaped.stringListContains _ _). }
  assert (forall Quote ChecksumIEEE dn set name value suffix,
      dn = Sprintf_eq name value +:+ suffix ->
      SetShaped.readAttribute Quote ChecksumIEEE dn set
        {| ldap.Name := name; ldap.Values := [value] |} = set) as Hs.
  { intros * ->. unfold SetShaped.readAttribute. simpl.
    rewrite HasPrefix_app. by destruct (String.eqb _ _). }
  split; [exact Hm|]. split; [exact Hs|]. split; [done|]. split; [done|]. split.
  - intros d client updateState Hdn Hsr. rewrite <- Hdn in Hsr at 1.
    destruct (map_readLDAPObject_found d client updateState _ _ _ Hsr eq_refl)
      as (d' & Hd & _ & Ha).
    exists d'. split; [done|]. rewrite Ha, Hdn. unfold MapShaped.readAttributes.
    simpl. by apply (Hm _ _ _ "cn" "foo" "bar,dc=example").
  - intros Quote ChecksumIEEE d client updateState Hdn Hsr.
    rewrite <- Hdn in Hsr at 1.
    destruct (set_readLDAPObject_found Quote ChecksumIEEE d client updateState
                _ _ _ Hsr eq_refl) as (d' & Hd & _ & Ha).
    exists d'. split; [done|]. rewrite Ha, Hdn. unfold SetShaped.readAttributes.
    simpl. by apply (Hs _ _ _ _ "cn" "foo" "bar,dc=example").
Qed.

Lemma rdn_prefix_witness :
  MapShaped.readAttribute "cn=foobar,dc=example" ["objectClass"] {[ "sn" := "Bar" ]}
    {| ldap.Name := "cn"; ldap.Values := ["foo"] |} = {[ "sn" := "Bar" ]}.
Proof.
  destruct rdn_test_is_a_prefix_test as (Hm & _).
  apply (Hm _ _ _ "cn" "foo" "bar,dc=example"). reflexivity.
Defined.

(** ** Errors of the directory *)

Lemma map_deltas t1 t2 t3 (oldAttrs newAttrs : gmap string string) :
  exists deltas,
    (forall modify,
       MapShaped.computeAndAddDeltas t1 t2 t3 modify oldAttrs newAttrs
       = (push modify deltas, None))
    /\ (oldAttrs = newAttrs -> deltas = [])
    /\ (forall name v,
          newAttrs !! name = Some v -> oldAttrs !! name <> Some v ->
          match oldAttrs !! name with
          | Some _ => Replace name (MapShaped.maybeJSONStringToArray v)
          | None => Add name (MapShaped.maybeJSONStringToArray v)
          end ∈ deltas).
Proof.
  eexists. split; [intros; apply map_computeAndAddDeltas_changes|]. split.
  - intros <-. apply nil_of_no_elem. intros c.
    rewrite !elem_of_app, elem_of_removed, elem_of_added, elem_of_replaced.
    intros [(name & _ & [v Hv] & Hn)|[(name & v & _ & Hv & Hn)
           |(name & o & v & _ & Ho & Hv & Hne)]]; congruence.
  - intros name v Hv Hne. rewrite !elem_of_app, elem_of_added, elem_of_replaced.
    destruct (oldAttrs !! name) as [o|] eqn:Ho; right.
    + right. exists name, o, v. repeat split; congruence.
    + left. by exists name, v.
Qed.

Lemma set_deltas t_rk t_ak t_ck (os ns : gmap string SetShaped.item) :
  exists deltas,
    (forall modify,
       SetShaped.computeAndAddDeltas t_rk t_ak t_ck modify os ns
       = (push modify deltas, None))
    /\ (os = ns -> deltas = []).
Proof.
  eexists. split; [intros; apply set_computeAndAddDeltas_changes|].
  intros <-.
  assert (removedNames os os = ∅) as Hr.
  { unfold removedNames. by rewrite Difference_self, List_empty. }
  assert (addedNames os os = ∅) as Ha.
  { unfold addedNames. by rewrite Difference_self, List_empty. }
  assert (changedNames os os = ∅) as Hc.
  { apply set_eq. intros k. rewrite elem_of_changedNames, Hr, Ha.
    split; [|by intros ?%not_elem_of_empty].
    by intros [[?%not_elem_of_empty _]|[?%not_elem_of_empty _]]. }
  by rewrite Hr, Ha, Hc, !util_List_empty.
Qed.

Lemma push_New dn l :
  push (ldap.ModifyRequest.New dn) l
  = {| ldap.ModifyRequest.DN := dn; ldap.ModifyRequest.Changes := l |}.
Proof. reflexivity. Qed.

(** The request update sends, given the changes of the diff. *)
Lemma map_update_request t1 t2 t3 d client deltas :
  (forall modify,
     MapShaped.computeAndAddDeltas t1 t2 t3 modify
       (MapShaped.attributes (MapShaped.old d))
       (MapShaped.attributes (MapShaped.new d))
     = (push modify deltas, None)) ->
  (MapShaped.attributes (MapShaped.old d) = MapShaped.attributes (MapShaped.new d) ->
   deltas = []) ->
  MapShaped.resourceLDAPObjectUpdate t1 t2 t3 d client
  = match ldap.Modify client
            {| ldap.ModifyRequest.DN := MapShaped.Id d;
               ldap.ModifyRequest.Changes :=
                 classChange (MapShaped.object_classes (MapShaped.old d))
                   (MapShaped.object_classes (MapShaped.new d))
                 ++ deltas |} with
    | Some err => Returns (d, Some err)
    | None => MapShaped.resourceLDAPObjectRead d client
    end.
Proof.
  intros Hd Heq. unfold MapShaped.resourceLDAPObjectUpdate, classChange.
  rewrite fold_append.
  destruct (bool_decide (MapShaped.attributes (MapShaped.old d)
                         <> MapShaped.attributes (MapShaped.new d))) eqn:E.
  - rewrite Hd.
    by destruct (bool_decide (MapShaped.object_classes (MapShaped.old d) <> _)).
  - apply bool_decide_eq_false in E. apply dec_stable in E.
    rewrite (Heq E), app_nil_r.
    by destruct (bool_decide (MapShaped.object_classes (MapShaped.old d) <> _)).
Qed.

Lemma set_update_request Quote ChecksumIEEE t_rk t_ak t_ck d client deltas :
  (forall modify,
     SetShaped.computeAndAddDeltas t_rk t_ak t_ck modify
       (SetShaped.attributes (SetShaped.old d))
       (SetShaped.attributes (SetShaped.new d))
     = (push modify deltas, None)) ->
  (SetShaped.attributes (SetShaped.old d) = SetShaped.attributes (SetShaped.new d) ->
   deltas = []) ->
  SetShaped.resourceLDAPObjectUpdate Quote ChecksumIEEE t_rk t_ak t_ck d client
  = match ldap.Modify client
            {| ldap.ModifyRequest.DN := SetShaped.Id d;
               ldap.ModifyRequest.Changes :=
                 classChange (SetShaped.object_classes (SetShaped.old d))
                   (SetShaped.object_classes (SetShaped.new d))
                 ++ deltas |} with
    | Some err => Returns (d, Some err)
    | None => SetShaped.resourceLDAPObjectRead Quote ChecksumIEEE d client
    end.
Proof.
  intros Hd Heq. unfold SetShaped.resourceLDAPObjectUpdate, classChange.
  rewrite fold_append.
  destruct (bool_decide (SetShaped.attributes (SetShaped.old d)
                         <> SetShaped.attributes (SetShaped.new d))) eqn:E.
  - rewrite Hd.
    by destruct (bool_decide (SetShaped.object_classes (SetShaped.old d) <> _)).
  - apply bool_decide_eq_false in E. apply dec_stable in E.
    rewrite (Heq E), app_nil_r.
    by destruct (bool_decide (SetShaped.object_classes (SetShaped.old d) <> _)).
Qed.

(** C8. When the search of a read fails with the result code 32 (no such
    object), the read returns no error and resource data whose id is the
    empty string, the prior and the declared values being left as they
    were; it returns every other error of the search, with the resource
    data untouched.  Update returns every error the server answers to the
    modify request it sends, and delete every error the server answers to
    its delete request, the result code 32 included.  This holds for both
    versions of the resource. *)
Theorem no_such_object_is_fatal_except_on_read :
  (forall d client,
      (ldap.Search client (MapShaped.readRequest (MapShaped.dn (MapShaped.new d)))
         = ldap.Err (ldap.Error 32) ->
       exists d',
         MapShaped.resourceLDAPObjectRead d client = Returns (d', None)
         /\ MapShaped.Id d' = EmptyString
         /\ MapShaped.old d' = MapShaped.old d
         /\ MapShaped.new d' = MapShaped.new d)
      /\ (forall err,
            ldap.Search client (MapShaped.readRequest (MapShaped.dn (MapShaped.new d)))
              = ldap.Err err ->
            err <> ldap.Error 32 ->
            MapShaped.resourceLDAPObjectRead d client = Returns (d, Some err))
      /\ (forall t1 t2 t3,
          exists deltas,
            (forall modify,
               MapShaped.computeAndAddDeltas t1 t2 t3 modify
                 (MapShaped.attributes (MapShaped.old d))
                 (MapShaped.attributes (MapShaped.new d))
               = (push modify deltas, None))
            /\ forall err,
                 ldap.Modify client
                   {| ldap.ModifyRequest.DN := MapShaped.Id d;
                      ldap.ModifyRequest.Changes :=
                        classChange (MapShaped.object_classes (MapShaped.old d))
                          (MapShaped.object_classes (MapShaped.new d))
                        ++ deltas |}
                 = Some err ->
                 MapShaped.resourceLDAPObjectUpdate t1 t2 t3 d client
                 = Returns (d, Some err))
      /\ (forall err,
            ldap.Del client (ldap.NewDelRequest (MapShaped.dn (MapShaped.new d)))
              = Some err ->
            MapShaped.resourceLDAPObjectDelete d client = Some err))
  /\ (forall Quote ChecksumIEEE d client,
      (ldap.Search client (SetShaped.readRequest (SetShaped.dn (SetShaped.new d)))
         = ldap.Err (ldap.Error 32) ->
       exists d',
         SetShaped.resourceLDAPObjectRead Quote ChecksumIEEE d client
           = Returns (d', None)
         /\ SetShaped.Id d' = EmptyString
         /\ SetShaped.old d' = SetShaped.old d
         /\ SetShaped.new d' = SetShaped.new d)
      /\ (forall err,
            ldap.Search client (SetShaped.readRequest (SetShaped.dn (SetShaped.new d)))
              = ldap.Err err ->
            err <> ldap.Error 32 ->
            SetShaped.resourceLDAPObjectRead Quote ChecksumIEEE d client
              = Returns (d, Some err))
      /\ (forall t_rk t_ak t_ck,
          exists deltas,
            (forall modify,
               SetShaped.computeAndAddDeltas t_rk t_ak t_ck modify
                 (SetShaped.attributes (SetShaped.old d))
                 (SetShaped.attributes (SetShaped.new d))
               = (push modify deltas, None))
            /\ forall err,
                 ldap.Modify client
                   {| ldap.ModifyRequest.DN := SetShaped.Id d;
                      ldap.ModifyRequest.Changes :=
                        classChange (SetShaped.object_classes (SetShaped.old d))
                          (SetShaped.object_classes (SetShaped.new d))
                        ++ deltas |}
                 = Some err ->
                 SetShaped.resourceLDAPObjectUpdate Quote ChecksumIEEE
                   t_rk t_ak t_ck d client
                 = Returns (d, Some err))
      /\ (forall err,
            ldap.Del client (ldap.NewDelRequest (SetShaped.dn (SetShaped.new d)))
              = Some err ->
            SetShaped.resourceLDAPObjectDelete d client = Some err)).
Proof.
  split.
  - intros d client. split; [|split; [|split]].
    + intros Hs. eexists. split.
      * unfold MapShaped.resourceLDAPObjectRead, MapShaped.readLDAPObject.
        rewrite Hs. reflexivity.
      * done.
    + intros err Hs Hne.
      unfold MapShaped.resourceLDAPObjectRead, MapShaped.readLDAPObject. rewrite Hs.
      destruct err as [code|msg]; [|done].
      destruct (code =? 32) eqn:E; [|done]. apply Z.eqb_eq in E. congruence.
    + intros t1 t2 t3.
      destruct (map_deltas t1 t2 t3 (MapShaped.attributes (MapShaped.old d))
                  (MapShaped.attributes (MapShaped.new d))) as (deltas & Hd & Heq & _).
      exists deltas. split; [done|]. intros err Hm.
      by rewrite (map_update_request t1 t2 t3 d client deltas Hd Heq), Hm.
    + intros err Hd. unfold MapShaped.resourceLDAPObjectDelete. by rewrite Hd.
  - intros Quote ChecksumIEEE d client. split; [|split; [|split]].
    + intros Hs. eexists. split.
      * unfold SetShaped.resourceLDAPObjectRead, SetShaped.readLDAPObject.
        rewrite Hs. reflexivity.
      * done.
    + intros err Hs Hne.
      unfold SetShaped.resourceLDAPObjectRead, SetShaped.readLDAPObject. rewrite Hs.
      destruct err as [code|msg]; [|done].
      destruct (code =? 32) eqn:E; [|done]. apply Z.eqb_eq in E. congruence.
    + intros t_rk t_ak t_ck.
      destruct (set_deltas t_rk t_ak t_ck (SetShaped.attributes (SetShaped.old d))
                  (SetShaped.attributes (SetShaped.new d))) as (deltas & Hd & Heq).
      exists deltas. split; [done|]. intros err Hm.
      by rewrite (set_update_request Quote ChecksumIEEE t_rk t_ak t_ck d client
                    deltas Hd Heq), Hm.
    + intros err Hd. unfold SetShaped.resourceLDAPObjectDelete. by rewrite Hd.
Qed.

Lemma no_such_object_witness :
  (exists d',
     MapShaped.resourceLDAPObjectRead sample_map_data gone_server = Returns (d', None)
     /\ MapShaped.Id d' = EmptyString)
  /\ MapShaped.resourceLDAPObjectUpdate in_order in_order in_order
       sample_map_data gone_server
     = Returns (sample_map_data, Some (ldap.Error 32))
  /\ MapShaped.resourceLDAPObjectDelete sample_map_data gone_server
     = Some (ldap.Error 32)
  /\ (exists d',
     SetShaped.resourceLDAPObjectRead strconv.Quote crc32.ChecksumIEEE
       sample_set_data gone_server = Returns (d', None)
     /\ SetShaped.Id d' = EmptyString)
  /\ SetShaped.resourceLDAPObjectUpdate strconv.Quote crc32.ChecksumIEEE
       in_order in_order in_order sample_set_data gone_server
     = Returns (sample_set_data, Some (ldap.Error 32))
  /\ SetShaped.resourceLDAPObjectDelete sample_set_data gone_server
     = Some (ldap.Error 32).
Proof.
  destruct no_such_object_is_fatal_except_on_read as [Hm Hs].
  destruct (Hm sample_map_data gone_server) as (Hread & _ & Hupd & Hdel).
  destruct (Hs strconv.Quote crc32.ChecksumIEEE sample_set_data gone_server)
    as (Hread' & _ & Hupd' & Hdel').
  split.
  { destruct (Hread eq_refl) as (d' & Hd & Hi & _). exists d'. by split. }
  split.
  { destruct (Hupd in_order in_order in_order) as (deltas & _ & Hu). by apply Hu. }
  split; [by apply Hdel|].
  split.
  { destruct (Hread' eq_refl) as (d' & Hd & Hi & _). exists d'. by split. }
  split.
  { destruct (Hupd' in_order in_order in_order) as (deltas & _ & Hu). by apply Hu. }
  by apply Hdel'.
Defined.

(** ** From the entry to the declared attributes and back *)





Lemma collect_from (l : list SetShaped.item) (m : gmap string (list string)) name :
  fold_left
    (fun m '(name, value) => <[name := default [] (m !! name) ++ [value]]> m) l m
  !! name
  = match SetShaped.valuesOf name l with
    | [] => m !! name
    | values => Some (default [] (m !! name) ++ values)
    end.
Proof.
  rewrite valuesOf_filter.
  revert m. induction l as [|[k v] l IH]; intros m; [done|]. simpl.
  rewrite IH, filter_cons. simpl. destruct (decide (name = k)) as [<-|Hne].
  - rewrite lookup_insert_eq. simpl.
    destruct (map snd _) as [|w r]; [done|].
    by rewrite <- app_assoc.
  - by rewrite lookup_insert_ne.
Qed.

(** The map [resourceLDAPObjectCreate] collects holds, under each name,
    the values of the listing under that name. *)
Lemma collect_lookup (l : list SetShaped.item) name :
  SetShaped.collect l !! name
  = match SetShaped.valuesOf name l with
    | [] => None
    | values => Some values
    end.
Proof.
  unfold SetShaped.collect. rewrite collect_from, lookup_empty.
  by destruct (SetShaped.valuesOf name l).
Qed.


(** ** The JSON encoding of ASCII values *)

Lemma append_cons x (a b : string) : String x a +:+ b = String x (a +:+ b).
Proof. reflexivity. Qed.

Lemma append_assoc (a b c : string) : (a +:+ b) +:+ c = a +:+ (b +:+ c).
Proof. induction a as [|x a IH]; [done|]. by rewrite !append_cons, IH. Qed.

Lemma append_empty_r (a : string) : a +:+ EmptyString = a.
Proof. induction a as [|x a IH]; [done|]. by rewrite append_cons, IH. Qed.

(** The decoder reads back the byte the encoder wrote. *)
Lemma decode_written c acc cur rest :
  (byte_val c <? utf8.RuneSelf) = true ->
  json.decode (json.InString 0) acc cur (written c +:+ rest)
  = json.decode (json.InString 0) acc (cur +:+ String c EmptyString) rest.
Proof.
  destruct c as [b0 b1 b2 b3 b4 b5 b6 b7].
  destruct b7; [by destruct b0, b1, b2, b3, b4, b5, b6|].
  intros _. destruct b0, b1, b2, b3, b4, b5, b6; reflexivity.
Qed.

Lemma appendString_from_ascii c t :
  (byte_val c <? utf8.RuneSelf) = true ->
  json.appendString_from json.AtRune (String c t)
  = written c +:+ json.appendString_from json.AtRune t.
Proof. intros H. simpl. by rewrite H. Qed.

Lemma decode_body s acc cur rest :
  asciiOnly s = true ->
  json.decode (json.InString 0) acc cur
    (json.appendString_from json.AtRune s +:+ rest)
  = json.decode (json.InString 0) acc (cur +:+ s) rest.
Proof.
  revert cur. induction s as [|c t IH]; intros cur Ha.
  - by rewrite append_empty_r.
  - simpl in Ha. apply andb_true_iff in Ha as [Hc Ht].
    rewrite appendString_from_ascii, append_assoc, decode_written by done.
    rewrite IH by done. by rewrite append_assoc.
Qed.

(** After the opening quote, the decoder reads the literal of [s] back as
    [s]. *)
Lemma decode_literal s acc rest :
  asciiOnly s = true ->
  json.decode (json.InString 0) acc EmptyString
    (json.appendString_from json.AtRune s +:+ String json.dquote rest)
  = json.decode json.EndValue (acc ++ [s]) EmptyString rest.
Proof. intros Ha. by rewrite decode_body. Qed.

Lemma decode_open acc cur t :
  json.decode json.BeginValue acc cur (String json.dquote t)
  = json.decode (json.InString 0) acc EmptyString t.
Proof. reflexivity. Qed.

Lemma decode_comma acc cur t :
  json.decode json.EndValue acc cur (String "," t)
  = json.decode json.BeginValue acc cur t.
Proof. reflexivity. Qed.

Lemma append_nil (b : string) : EmptyString +:+ b = b.
Proof. reflexivity. Qed.

Lemma decode_close acc cur : json.decode json.EndValue acc cur "]" = Some acc.
Proof. reflexivity. Qed.

Lemma appendString_eq s :
  json.appendString s
  = String json.dquote
      (json.appendString_from json.AtRune s +:+ String json.dquote EmptyString).
Proof. reflexivity. Qed.

Lemma join_cons sep x y l :
  json.join sep (x :: y :: l) = x +:+ sep +:+ json.join sep (y :: l).
Proof. reflexivity. Qed.

Lemma decode_elements values acc :
  Forall (fun s => asciiOnly s = true) values -> values <> [] ->
  json.decode json.BeginValue acc EmptyString
    (json.join "," (map json.appendString values) +:+ "]")
  = Some (acc ++ values).
Proof.
  revert acc. induction values as [|v l IH]; intros acc Ha Hne; [done|].
  apply Forall_cons in Ha as [Hv Hl].
  destruct l as [|w l].
  - cbn [map json.join]. rewrite appendString_eq, append_cons, decode_open.
    rewrite append_assoc, append_cons, append_nil, decode_literal by done.
    apply decode_close.
  - cbn [map]. rewrite join_cons, appendString_eq, !append_assoc.
    rewrite !append_cons, append_nil, decode_open, !append_assoc.
    rewrite !append_cons, append_nil, decode_literal by done.
    rewrite decode_comma.
    change (json.appendString w :: map json.appendString l)
      with (map json.appendString (w :: l)).
    rewrite IH by done. by rewrite <- app_assoc.
Qed.

Lemma join_head v l rest :
  exists t, json.join "," (map json.appendString (v :: l)) +:+ rest
            = String json.dquote t.
Proof.
  destruct l as [|w l]; cbn [map]; [cbn [json.join]|rewrite join_cons];
    rewrite appendString_eq, ?append_assoc, append_cons; eauto.
Qed.

(** Decoding the JSON encoding of a list of ASCII strings gives the list
    back. *)
Lemma Unmarshal_Marshal_ascii values :
  Forall (fun s => asciiOnly s = true) values ->
  json.Unmarshal (json.Marshal values) = Some values.
Proof.
  intros Ha. destruct values as [|v l]; [done|].
  transitivity (json.decode json.BeginValue [] EmptyString
                  (json.join "," (map json.appendString (v :: l)) +:+ "]"));
    [|by apply (decode_elements (v :: l) [])].
  unfold json.Unmarshal, json.Marshal.
  destruct (join_head v l "]") as [t ->]. reflexivity.
Qed.

(** Encoding a list of ASCII strings with [json.Marshal] and decoding the
    text with [maybeJSONStringToArray] gives the list back; so every list
    of two or more ASCII strings round-trips through the map mode. *)
Theorem json_round_trip_on_ascii :
  forall values,
    Forall (fun s => asciiOnly s = true) values ->
    json.Unmarshal (json.Marshal values) = Some values
    /\ MapShaped.maybeJSONStringToArray (json.Marshal values) = values
    /\ ((2 <= length values)%nat -> roundTrips values).
Proof.
  intros values Ha. pose proof (Unmarshal_Marshal_ascii values Ha) as Hu.
  split; [done|]. split.
  - unfold MapShaped.maybeJSONStringToArray. by rewrite Marshal_bracket, Hu.
  - destruct values as [|v [|w l]]; simpl; [lia|lia|done].
Qed.

Lemma json_round_trip_witness :
  MapShaped.maybeJSONStringToArray
    (json.Marshal ["a<b & c>"; quoted "x\y"; "line" +:+ String "010" "end"])
  = ["a<b & c>"; quoted "x\y"; "line" +:+ String "010" "end"].
Proof.
  apply json_round_trip_on_ascii. by_computation.
Defined.

(** ** Further properties of the two versions *)

(** When the search succeeds without an entry, [readLDAPObject] indexes
    [Entries[0]] out of range and panics, in both versions. *)
Theorem read_panics_without_entry :
  (forall d client updateState,
      ldap.Search client (MapShaped.readRequest (MapShaped.dn (MapShaped.new d)))
        = ldap.Ok {| ldap.Entries := [] |} ->
      MapShaped.readLDAPObject d client updateState = Panics)
  /\ (forall Quote ChecksumIEEE d client updateState,
      ldap.Search client (SetShaped.readRequest (SetShaped.dn (SetShaped.new d)))
        = ldap.Ok {| ldap.Entries := [] |} ->
      SetShaped.readLDAPObject Quote ChecksumIEEE d client updateState = Panics).
Proof.
  split.
  - intros * Hs. unfold MapShaped.readLDAPObject. by rewrite Hs.
  - intros * Hs. unfold SetShaped.readLDAPObject. by rewrite Hs.
Qed.

Lemma read_panics_witness :
  MapShaped.readLDAPObject sample_map_data
    {| ldap.Search := fun _ => ldap.Ok {| ldap.Entries := [] |};
       ldap.Add := fun _ => None;
       ldap.Modify := fun _ => None;
       ldap.Del := fun _ => None |} true
  = Panics.
Proof.
  destruct read_panics_without_entry as [Hm _]. apply Hm. reflexivity.
Defined.

(** The set-shaped diff appends its changes in three runs: the removals,
    then the additions, then the replacements. *)
Theorem set_diff_runs_in_order :
  forall t_rk t_ak t_ck modify (os ns : gmap string SetShaped.item),
  exists R A P,
    SetShaped.computeAndAddDeltas t_rk t_ak t_ck modify os ns
    = (push modify (R ++ A ++ P), None)
    /\ Forall (fun c => ldap.Op c = ldap.DeleteAttribute) R
    /\ Forall (fun c => ldap.Op c = ldap.AddAttribute) A
    /\ Forall (fun c => ldap.Op c = ldap.ReplaceAttribute) P.
Proof.
  intros. eexists _, _, _. split; [apply set_computeAndAddDeltas_changes|].
  repeat split; apply Forall_forall; intros c Hc;
    apply list_elem_of_fmap in Hc as (k & -> & _); done.
Qed.

(** ** Does the object exist *)

(** [resourceLDAPObjectExists] answers [true] whenever the search succeeds,
    whatever the result holds (even no entry); it answers [false] without
    an error exactly on the result code 32, and hands any other error of
    the search back. *)
Theorem exists_reports_a_successful_search :
  (forall d l,
      let answer := ldap.Search l (MapShaped.existsRequest (MapShaped.dn (MapShaped.new d))) in
      (MapShaped.resourceLDAPObjectExists d l = (true, None)
         <-> exists sr, answer = ldap.Ok sr)
      /\ (MapShaped.resourceLDAPObjectExists d l = (false, None)
         <-> answer = ldap.Err (ldap.Error 32))
      /\ (forall err, MapShaped.resourceLDAPObjectExists d l = (false, Some err)
         <-> answer = ldap.Err err /\ err <> ldap.Error 32))
  /\ (forall d l,
      let answer := ldap.Search l (SetShaped.existsRequest (SetShaped.dn (SetShaped.new d))) in
      (SetShaped.resourceLDAPObjectExists d l = (true, None)
         <-> exists sr, answer = ldap.Ok sr)
      /\ (SetShaped.resourceLDAPObjectExists d l = (false, None)
         <-> answer = ldap.Err (ldap.Error 32))
      /\ (forall err, SetShaped.resourceLDAPObjectExists d l = (false, Some err)
         <-> answer = ldap.Err err /\ err <> ldap.Error 32)).
Proof.
  split; intros d l; cbv zeta;
    [unfold MapShaped.resourceLDAPObjectExists
    |unfold SetShaped.resourceLDAPObjectExists];
    (destruct (ldap.Search l _) as [sr|[code|msg]];
     [|destruct (Z.eqb_spec code 32) as [->|Hne]|]);
    (split; [|split; [|intros err]]); split;
    try (intros [sr' ?]); try (intros [? ?]); try intros ?;
    try congruence; eauto.
  all: try (split; congruence).
  all: try (simplify_eq; done).
Qed.

(** ** The request of create *)

Lemma attach_nil request : attach request [] = request.
Proof. unfold attach. rewrite app_nil_r. by destruct request. Qed.

Lemma attach_attach request l1 l2 :
  attach (attach request l1) l2 = attach request (l1 ++ l2).
Proof. unfold attach. simpl. by rewrite app_assoc. Qed.

Lemma fold_attributes {A} (h : A -> option ldap.Attribute)
    (f : ldap.AddRequest.t -> A -> ldap.AddRequest.t)
    (l : list A) (request : ldap.AddRequest.t) :
  (forall request x,
     f request x = match h x with
                   | Some a => attach request [a]
                   | None => request
                   end) ->
  fold_left f l request = attach request (omap h l).
Proof.
  intros Hf. revert request. induction l as [|x l IH]; intros request; simpl.
  - by rewrite attach_nil.
  - rewrite IH, Hf. destruct (h x); [|done]. by rewrite attach_attach.
Qed.

Lemma map_addRequest_eq t d :
  MapShaped.addRequest t d
  = {| ldap.AddRequest.DN := MapShaped.dn (MapShaped.new d);
       ldap.AddRequest.Attributes :=
         {| ldap.AttrType := "objectClass";
            ldap.AttrVals := MapShaped.object_classes (MapShaped.new d) |}
         :: omap (createdAttribute (MapShaped.attributesToSkip d))
              (visit t (map_to_list (MapShaped.attributes (MapShaped.new d)))) |}.
Proof.
  unfold MapShaped.addRequest.
  rewrite (fold_attributes (createdAttribute (MapShaped.attributesToSkip d))).
  - rewrite fold_append. reflexivity.
  - intros request [name value]. unfold createdAttribute. simpl.
    by destruct (MapShaped.stringListContains name _).
Qed.

Lemma omap_NoDup_typed {A} (key : A -> string) (h : A -> option ldap.Attribute)
    (l : list A) :
  (forall x a, h x = Some a -> ldap.AttrType a = key x) ->
  NoDup (map key l) -> NoDup (map ldap.AttrType (omap h l)).
Proof.
  intros Hk. induction l as [|x l IH]; simpl; [constructor|].
  intros Hnd. apply NoDup_cons in Hnd as [Hx Hnd].
  destruct (h x) as [a|] eqn:E; [|by apply IH].
  simpl. apply NoDup_cons. split; [|by apply IH].
  intros Hin. apply Hx.
  apply list_elem_of_fmap in Hin as (b & Hb & Hin).
  apply list_elem_of_omap in Hin as (y & Hy & Hhy).
  apply list_elem_of_fmap. exists y. split; [|done].
  rewrite <- (Hk x a E), Hb. by apply Hk.
Qed.

(** The request [MapShaped.resourceLDAPObjectCreate] sends holds the
    attribute [objectClass] with the declared classes first, and then, in
    the order the map is visited, one attribute for every declared name
    that is neither [objectClass] nor among [skip_attributes], with the
    values [maybeJSONStringToArray] reads from the declared string; no
    name comes twice. *)
Theorem map_create_sends_declared_attributes :
  forall t d,
  exists rest,
    MapShaped.addRequest t d
    = {| ldap.AddRequest.DN := MapShaped.dn (MapShaped.new d);
         ldap.AddRequest.Attributes :=
           {| ldap.AttrType := "objectClass";
              ldap.AttrVals := MapShaped.object_classes (MapShaped.new d) |} :: rest |}
    /\ NoDup (map ldap.AttrType rest)
    /\ forall a, a ∈ rest <->
         exists name value,
           MapShaped.attributes (MapShaped.new d) !! name = Some value
           /\ name <> "objectClass"
           /\ (name ∉ MapShaped.skip_attributes (MapShaped.new d))
           /\ a = {| ldap.AttrType := name;
                     ldap.AttrVals := MapShaped.maybeJSONStringToArray value |}.
Proof.
  intros t d. eexists. split; [apply map_addRequest_eq|]. split.
  - apply (omap_NoDup_typed fst).
    + intros [name value] a. unfold createdAttribute. simpl.
      destruct (MapShaped.stringListContains name _); [done|]. by intros [= <-].
    + apply visit_NoDup_fst, NoDup_fst_map_to_list.
  - intros a. rewrite list_elem_of_omap. split.
    + intros ([name value] & Hin & Ha).
      apply visit_elem_of, elem_of_map_to_list in Hin.
      unfold createdAttribute in Ha. simpl in Ha.
      destruct (MapShaped.stringListContains name _) eqn:E; [done|].
      injection Ha as <-. exists name, value.
      assert (name ∉ MapShaped.attributesToSkip d) as Hs.
      { intros Hs. apply stringListContains_spec in Hs. congruence. }
      rewrite attributesToSkip_eq in Hs.
      apply not_elem_of_cons in Hs as [? ?]. done.
    + intros (name & value & Hl & Hn & Hs & ->).
      exists (name, value). split.
      * by apply visit_elem_of, elem_of_map_to_list.
      * unfold createdAttribute. simpl.
        destruct (MapShaped.stringListContains name _) eqn:E; [|done].
        apply stringListContains_spec in E. rewrite attributesToSkip_eq in E.
        apply elem_of_cons in E as [?|?]; done.
Qed.

Lemma set_addRequest_eq t d :
  SetShaped.addRequest t d
  = {| ldap.AddRequest.DN := SetShaped.dn (SetShaped.new d);
       ldap.AddRequest.Attributes :=
         {| ldap.AttrType := "objectClass";
            ldap.AttrVals := SetShaped.object_classes (SetShaped.new d) |}
         :: map (fun kv => {| ldap.AttrType := kv.1; ldap.AttrVals := kv.2 |})
              (visit t
                 (map_to_list
                    (SetShaped.collect
                       (schema.List (SetShaped.attributes (SetShaped.new d)))))) |}.
Proof.
  unfold SetShaped.addRequest. rewrite fold_append.
  destruct (schema.List (SetShaped.attributes (SetShaped.new d))) as [|x l] eqn:E.
  - simpl. unfold SetShaped.collect. simpl. by rewrite map_to_list_empty, visit_nil.
  - cbn [length Nat.ltb Nat.leb]. 
    rewrite (fold_attributes
               (fun kv => Some {| ldap.AttrType := kv.1; ldap.AttrVals := kv.2 |})).
    + unfold attach. simpl.
      replace (omap (fun kv : string * list string =>
                  Some {| ldap.AttrType := kv.1; ldap.AttrVals := kv.2 |})
                 (visit t (map_to_list (SetShaped.collect (x :: l)))))
        with (map (fun kv : string * list string =>
                  {| ldap.AttrType := kv.1; ldap.AttrVals := kv.2 |})
                 (visit t (map_to_list (SetShaped.collect (x :: l))))); [done|].
      induction (visit t _) as [|y ys IH]; [done|]. simpl. by rewrite IH.
    + by intros request [name values].
Qed.

(** The request [SetShaped.resourceLDAPObjectCreate] sends holds the
    attribute [objectClass] with the declared classes first, and then one
    attribute for every name of the declared set, each once, with all the
    values the listing of the set holds under the name, in the order of
    the listing: the values a [Replace] of the diff carries. *)
Theorem set_create_sends_collected_values :
  forall t d,
  exists rest,
    SetShaped.addRequest t d
    = {| ldap.AddRequest.DN := SetShaped.dn (SetShaped.new d);
         ldap.AddRequest.Attributes :=
           {| ldap.AttrType := "objectClass";
              ldap.AttrVals := SetShaped.object_classes (SetShaped.new d) |} :: rest |}
    /\ NoDup (map ldap.AttrType rest)
    /\ forall name values,
         {| ldap.AttrType := name; ldap.AttrVals := values |} ∈ rest <->
         values <> []
         /\ values = SetShaped.valuesOf name
                       (schema.List (SetShaped.attributes (SetShaped.new d))).
Proof.
  intros t d. eexists. split; [apply set_addRequest_eq|]. split.
  - rewrite <- list_fmap_compose.
    change (NoDup (map fst (visit t (map_to_list
              (SetShaped.collect (schema.List (SetShaped.attributes (SetShaped.new d)))))))).
    apply visit_NoDup_fst, NoDup_fst_map_to_list.
  - intros name values. rewrite list_elem_of_fmap. split.
    + intros ([k vs] & [= -> ->] & Hin).
      apply visit_elem_of, elem_of_map_to_list in Hin.
      rewrite collect_lookup in Hin.
      destruct (SetShaped.valuesOf k _) as [|v l]; [done|].
      by injection Hin as <-.
    + intros [Hne ->].
      exists (name, SetShaped.valuesOf name
                      (schema.List (SetShaped.attributes (SetShaped.new d)))).
      split; [reflexivity|].
      apply visit_elem_of, elem_of_map_to_list. rewrite collect_lookup. simpl.
      revert Hne. by destruct (SetShaped.valuesOf name _).
Qed.

(** When the server refuses the add request, create returns its error
    and leaves the resource data as they were: the id is not set.  When
    the server accepts it, create goes on to read the object back: if the
    search then answers "no such object", create returns no error and the
    id is empty; if it finds an entry, the id is the DN. *)
Theorem create_sets_the_id_after_a_successful_add :
  (forall t d client,
      (forall err,
          ldap.Add client (MapShaped.addRequest t d) = Some err ->
          MapShaped.resourceLDAPObjectCreate t d client = Returns (d, Some err))
      /\ (ldap.Add client (MapShaped.addRequest t d) = None ->
          ldap.Search client (MapShaped.readRequest (MapShaped.dn (MapShaped.new d)))
            = ldap.Err (ldap.Error 32) ->
          MapShaped.resourceLDAPObjectCreate t d client
            = Returns (MapShaped.SetId "" d, None))
      /\ (forall sr entry rest,
          ldap.Add client (MapShaped.addRequest t d) = None ->
          ldap.Search client (MapShaped.readRequest (MapShaped.dn (MapShaped.new d)))
            = ldap.Ok sr ->
          ldap.Entries sr = entry :: rest ->
          exists d',
            MapShaped.resourceLDAPObjectCreate t d client = Returns (d', None)
            /\ MapShaped.Id d' = MapShaped.dn (MapShaped.new d)))
  /\ (forall Quote ChecksumIEEE t d client,
      (forall err,
          ldap.Add client (SetShaped.addRequest t d) = Some err ->
          SetShaped.resourceLDAPObjectCreate Quote ChecksumIEEE t d client
            = Returns (d, Some err))
      /\ (ldap.Add client (SetShaped.addRequest t d) = None ->
          ldap.Search client (SetShaped.readRequest (SetShaped.dn (SetShaped.new d)))
            = ldap.Err (ldap.Error 32) ->
          SetShaped.resourceLDAPObjectCreate Quote ChecksumIEEE t d client
            = Returns (SetShaped.SetId "" d, None))
      /\ (forall sr entry rest,
          ldap.Add client (SetShaped.addRequest t d) = None ->
          ldap.Search client (SetShaped.readRequest (SetShaped.dn (SetShaped.new d)))
            = ldap.Ok sr ->
          ldap.Entries sr = entry :: rest ->
          exists d',
            SetShaped.resourceLDAPObjectCreate Quote ChecksumIEEE t d client
              = Returns (d', None)
            /\ SetShaped.Id d' = SetShaped.dn (SetShaped.new d))).
Proof.
  split.
  - intros t d client. unfold MapShaped.resourceLDAPObjectCreate. repeat split.
    + by intros err ->.
    + intros -> Hs. unfold MapShaped.resourceLDAPObjectRead, MapShaped.readLDAPObject.
      simpl. by rewrite Hs.
    + intros sr entry rest -> Hs He.
      destruct (map_readLDAPObject_found (MapShaped.SetId (MapShaped.dn (MapShaped.new d)) d)
                  client true sr entry rest Hs He) as (d' & Hd & Hi & _).
      by exists d'.
  - intros Quote ChecksumIEEE t d client.
    unfold SetShaped.resourceLDAPObjectCreate. repeat split.
    + by intros err ->.
    + intros -> Hs. unfold SetShaped.resourceLDAPObjectRead, SetShaped.readLDAPObject.
      simpl. by rewrite Hs.
    + intros sr entry rest -> Hs He.
      destruct (set_readLDAPObject_found Quote ChecksumIEEE
                  (SetShaped.SetId (SetShaped.dn (SetShaped.new d)) d)
                  client true sr entry rest Hs He) as (d' & Hd & Hi & _).
      by exists d'.
Qed.

Lemma create_outcomes_witness :
  MapShaped.resourceLDAPObjectCreate in_order sample_map_data gone_server
    = Returns (sample_map_data, Some (ldap.Error 32))
  /\ SetShaped.resourceLDAPObjectCreate strconv.Quote crc32.ChecksumIEEE in_order
       sample_set_data
       {| ldap.Search := fun _ => ldap.Err (ldap.Error 32);
          ldap.Add := fun _ => None;
          ldap.Modify := fun _ => None;
          ldap.Del := fun _ => None |}
     = Returns (SetShaped.SetId "" sample_set_data, None).
Proof.
  destruct create_sets_the_id_after_a_successful_add as [Hm Hs]. split.
  - by apply Hm.
  - by apply Hs.
Defined.

(** ** The request of update *)

(** Update sends one modify request, under the id of the resource: the
    replacement of [objectClass] first when the classes changed, then the
    changes of the diff of the old and the new attributes, which are none
    when the two are equal; so a request goes out even when nothing
    changed.  A refusal of the server is returned, and otherwise update
    ends with a read. *)
Theorem update_sends_class_change_then_diff :
  (forall t1 t2 t3 d client,
    exists deltas,
      (forall modify,
         MapShaped.computeAndAddDeltas t1 t2 t3 modify
           (MapShaped.attributes (MapShaped.old d))
           (MapShaped.attributes (MapShaped.new d))
         = (push modify deltas, None))
      /\ (MapShaped.attributes (MapShaped.old d)
            = MapShaped.attributes (MapShaped.new d) -> deltas = [])
      /\ MapShaped.resourceLDAPObjectUpdate t1 t2 t3 d client
         = match ldap.Modify client
                   {| ldap.ModifyRequest.DN := MapShaped.Id d;
                      ldap.ModifyRequest.Changes :=
                        classChange (MapShaped.object_classes (MapShaped.old d))
                          (MapShaped.object_classes (MapShaped.new d))
                        ++ deltas |} with
           | Some err => Returns (d, Some err)
           | None => MapShaped.resourceLDAPObjectRead d client
           end)
  /\ (forall Quote ChecksumIEEE t_rk t_ak t_ck d client,
    exists deltas,
      (forall modify,
         SetShaped.computeAndAddDeltas t_rk t_ak t_ck modify
           (SetShaped.attributes (SetShaped.old d))
           (SetShaped.attributes (SetShaped.new d))
         = (push modify deltas, None))
      /\ (SetShaped.attributes (SetShaped.old d)
            = SetShaped.attributes (SetShaped.new d) -> deltas = [])
      /\ SetShaped.resourceLDAPObjectUpdate Quote ChecksumIEEE t_rk t_ak t_ck d client
         = match ldap.Modify client
                   {| ldap.ModifyRequest.DN := SetShaped.Id d;
                      ldap.ModifyRequest.Changes :=
                        classChange (SetShaped.object_classes (SetShaped.old d))
                          (SetShaped.object_classes (SetShaped.new d))
                        ++ deltas |} with
           | Some err => Returns (d, Some err)
           | None => SetShaped.resourceLDAPObjectRead Quote ChecksumIEEE d client
           end).
Proof.
  split.
  - intros t1 t2 t3 d client.
    destruct (map_deltas t1 t2 t3 (MapShaped.attributes (MapShaped.old d))
                (MapShaped.attributes (MapShaped.new d))) as (deltas & Hd & Heq & _).
    exists deltas. split; [done|]. split; [done|].
    unfold MapShaped.resourceLDAPObjectUpdate, classChange.
    rewrite fold_append.
    destruct (bool_decide (MapShaped.attributes (MapShaped.old d)
                           <> MapShaped.attributes (MapShaped.new d))) eqn:E.
    + rewrite Hd.
      by destruct (bool_decide (MapShaped.object_classes (MapShaped.old d) <> _)).
    + apply bool_decide_eq_false in E. apply dec_stable in E.
      rewrite (Heq E), app_nil_r.
      by destruct (bool_decide (MapShaped.object_classes (MapShaped.old d) <> _)).
  - intros Quote ChecksumIEEE t_rk t_ak t_ck d client.
    destruct (set_deltas t_rk t_ak t_ck (SetShaped.attributes (SetShaped.old d))
                (SetShaped.attributes (SetShaped.new d))) as (deltas & Hd & Heq).
    exists deltas. split; [done|]. split; [done|].
    unfold SetShaped.resourceLDAPObjectUpdate, classChange.
    rewrite fold_append.
    destruct (bool_decide (SetShaped.attributes (SetShaped.old d)
                           <> SetShaped.attributes (SetShaped.new d))) eqn:E.
    + rewrite Hd.
      by destruct (bool_decide (SetShaped.object_classes (SetShaped.old d) <> _)).
    + apply bool_decide_eq_false in E. apply dec_stable in E.
      rewrite (Heq E), app_nil_r.
      by destruct (bool_decide (SetShaped.object_classes (SetShaped.old d) <> _)).
Qed.

(** [skip_attributes] is honoured by create, not by update: for a name
    among [skip_attributes] (other than [objectClass]) whose declared
    string is not the one of the prior state, create sends no attribute,
    while the request of update holds the change of that name: [Replace]
    when the prior state has the name, [Add] when it has not. *)
Theorem update_replaces_a_skipped_attribute :
  forall t t1 t2 t3 d client name v,
    name ∈ MapShaped.skip_attributes (MapShaped.new d) ->
    name <> "objectClass" ->
    MapShaped.attributes (MapShaped.new d) !! name = Some v ->
    MapShaped.attributes (MapShaped.old d) !! name <> Some v ->
    (forall a, a ∈ ldap.AddRequest.Attributes (MapShaped.addRequest t d) ->
               ldap.AttrType a <> name)
    /\ exists changes,
         match MapShaped.attributes (MapShaped.old d) !! name with
         | Some _ => Replace name (MapShaped.maybeJSONStringToArray v)
         | None => Add name (MapShaped.maybeJSONStringToArray v)
         end ∈ changes
         /\ MapShaped.resourceLDAPObjectUpdate t1 t2 t3 d client
            = match ldap.Modify client
                      {| ldap.ModifyRequest.DN := MapShaped.Id d;
                         ldap.ModifyRequest.Changes := changes |} with
              | Some err => Returns (d, Some err)
              | None => MapShaped.resourceLDAPObjectRead d client
              end.
Proof.
  intros t t1 t2 t3 d client name v Hskip Hoc Hv Hne. split.
  - intros a. rewrite map_addRequest_eq. simpl.
    rewrite elem_of_cons, list_elem_of_omap.
    intros [->|([k w] & _ & Ha)]; simpl.
    + by intros <-.
    + unfold createdAttribute in Ha. simpl in Ha.
      destruct (MapShaped.stringListContains k _) eqn:E; [done|].
      injection Ha as <-. simpl. intros ->.
      assert (name ∈ MapShaped.attributesToSkip d) as Hin.
      { rewrite attributesToSkip_eq. by right. }
      apply stringListContains_spec in Hin. congruence.
  - destruct (map_deltas t1 t2 t3 (MapShaped.attributes (MapShaped.old d))
                (MapShaped.attributes (MapShaped.new d))) as (deltas & Hd & _ & Hr).
    exists (classChange (MapShaped.object_classes (MapShaped.old d))
              (MapShaped.object_classes (MapShaped.new d)) ++ deltas).
    split; [apply elem_of_app; right; by apply (Hr name v)|].
    unfold MapShaped.resourceLDAPObjectUpdate, classChange. rewrite fold_append.
    rewrite bool_decide_eq_true_2 by (intros Heq; by rewrite Heq in Hne).
    rewrite Hd.
    by destruct (bool_decide (MapShaped.object_classes (MapShaped.old d) <> _)).
Qed.

Lemma update_replaces_a_skipped_attribute_witness :
  (forall a,
      a ∈ ldap.AddRequest.Attributes (MapShaped.addRequest in_order skipping_data) ->
      ldap.AttrType a <> "userPassword")
  /\ exists changes,
       Replace "userPassword" ["new"] ∈ changes
       /\ MapShaped.resourceLDAPObjectUpdate in_order in_order in_order
            skipping_data sample_server
          = match ldap.Modify sample_server
                    {| ldap.ModifyRequest.DN := sample_dn;
                       ldap.ModifyRequest.Changes := changes |} with
            | Some err => Returns (skipping_data, Some err)
            | None => MapShaped.resourceLDAPObjectRead skipping_data sample_server
            end.
Proof.
  apply (update_replaces_a_skipped_attribute in_order in_order in_order in_order
           skipping_data sample_server "userPassword" "new").
  - by_computation.
  - discriminate.
  - reflexivity.
  - discriminate.
Defined.

(** ** What the diff of two maps touches *)

Lemma omap_NoDup_names {A} (key : A -> string) (h : A -> option ldap.Change)
    (l : list A) :
  (forall x c, h x = Some c -> ldap.ModType c = key x) ->
  NoDup (map key l) -> NoDup (map ldap.ModType (omap h l)).
Proof.
  intros Hk. induction l as [|x l IH]; simpl; [constructor|].
  intros Hnd. apply NoDup_cons in Hnd as [Hx Hnd].
  destruct (h x) as [c|] eqn:E; [|by apply IH].
  simpl. apply NoDup_cons. split; [|by apply IH].
  intros Hin. apply Hx.
  apply list_elem_of_fmap in Hin as (b & Hb & Hin).
  apply list_elem_of_omap in Hin as (y & Hy & Hhy).
  apply list_elem_of_fmap. exists y. split; [|done].
  rewrite <- (Hk x c E), Hb. by apply Hk.
Qed.

Lemma NoDup_delta_names (h : string * string -> option ldap.Change) t
    (m : gmap string string) :
  (forall x c, h x = Some c -> ldap.ModType c = x.1) ->
  NoDup (map ldap.ModType (omap h (visit t (map_to_list m)))).
Proof.
  intros Hk. apply (omap_NoDup_names fst); [done|].
  apply visit_NoDup_fst, NoDup_fst_map_to_list.
Qed.

Lemma named_removed t oldAttrs newAttrs name :
  name ∈ map ldap.ModType (omap (removedChange newAttrs) (visit t (map_to_list oldAttrs)))
  <-> is_Some (oldAttrs !! name) /\ newAttrs !! name = None.
Proof.
  rewrite list_elem_of_fmap. split.
  - intros (c & -> & Hc). apply elem_of_removed in Hc as (k & -> & ? & ?). done.
  - intros [Ho Hn]. exists (Remove name). split; [done|].
    apply elem_of_removed. by exists name.
Qed.

Lemma named_added t oldAttrs newAttrs name :
  name ∈ map ldap.ModType (omap (addedChange oldAttrs) (visit t (map_to_list newAttrs)))
  <-> is_Some (newAttrs !! name) /\ oldAttrs !! name = None.
Proof.
  rewrite list_elem_of_fmap. split.
  - intros (c & -> & Hc). apply elem_of_added in Hc as (k & v & -> & Hv & ?).
    simpl. by rewrite Hv.
  - intros [[v Hv] Ho]. exists (Add name (MapShaped.maybeJSONStringToArray v)).
    split; [done|]. apply elem_of_added. by exists name, v.
Qed.

Lemma named_replaced t oldAttrs newAttrs name :
  name ∈ map ldap.ModType (omap (replacedChange oldAttrs) (visit t (map_to_list newAttrs)))
  <-> exists o v, oldAttrs !! name = Some o /\ newAttrs !! name = Some v /\ o <> v.
Proof.
  rewrite list_elem_of_fmap. split.
  - intros (c & -> & Hc). apply elem_of_replaced in Hc as (k & o & v & -> & ? & ? & ?).
    by exists o, v.
  - intros (o & v & Ho & Hv & Hne).
    exists (Replace name (MapShaped.maybeJSONStringToArray v)).
    split; [done|]. apply elem_of_replaced. by exists name, o, v.
Qed.

(** The map-shaped diff sends at most one change per name, and sends one
    for exactly the names the two maps do not bind alike; it sends none
    only when the two maps are equal. *)
Theorem map_diff_changes_exactly_what_differs :
  forall t1 t2 t3 modify (oldAttrs newAttrs : gmap string string),
  exists deltas,
    MapShaped.computeAndAddDeltas t1 t2 t3 modify oldAttrs newAttrs
    = (push modify deltas, None)
    /\ NoDup (map ldap.ModType deltas)
    /\ (forall name,
          name ∈ map ldap.ModType deltas <-> oldAttrs !! name <> newAttrs !! name)
    /\ (deltas = [] <-> oldAttrs = newAttrs).
Proof.
  intros. eexists. split; [apply map_computeAndAddDeltas_changes|].
  set (R := omap (removedChange newAttrs) _).
  set (A := omap (addedChange oldAttrs) _).
  set (P := omap (replacedChange oldAttrs) _).
  assert (forall name,
            name ∈ map ldap.ModType (R ++ A ++ P)
            <-> oldAttrs !! name <> newAttrs !! name) as Hnames.
  { intros name. rewrite !map_app, !elem_of_app.
    unfold R, A, P. rewrite named_removed, named_added, named_replaced.
    destruct (oldAttrs !! name) as [o|], (newAttrs !! name) as [v|]; split.
    - intros [[_ [=]]|[[_ [=]]|(? & ? & [= <-] & [= <-] & ?)]]. congruence.
    - intros Hne. right. right. exists o, v. repeat split; congruence.
    - done.
    - intros _. left. eauto.
    - done.
    - intros _. right. left. eauto.
    - intros [[[? [=]] _]|[[[? [=]] _]|(? & ? & [=] & _)]].
    - done. }
  split; [|split; [done|]].
  - rewrite !map_app. apply NoDup_app. split; [|split].
    + apply NoDup_delta_names, removedChange_key.
    + intros name Hr Hap. unfold R in Hr. apply named_removed in Hr as [_ Hn].
      apply elem_of_app in Hap as [Ha|Hp].
      * unfold A in Ha. apply named_added in Ha as [[? ?] _]. congruence.
      * unfold P in Hp. apply named_replaced in Hp as (? & ? & _ & ? & _). congruence.
    + apply NoDup_app. split; [|split].
      * apply NoDup_delta_names, addedChange_key.
      * intros name Ha Hp. unfold A in Ha. apply named_added in Ha as [_ Ho].
        unfold P in Hp. apply named_replaced in Hp as (? & ? & ? & _). congruence.
      * apply NoDup_delta_names, replacedChange_key.
  - split.
    + intros Hnil. apply map_eq. intros name.
      destruct (decide (oldAttrs !! name = newAttrs !! name)) as [|Hne]; [done|].
      apply Hnames in Hne. rewrite Hnil in Hne. by apply elem_of_nil in Hne.
    + intros Heq. apply nil_of_no_elem. intros c Hc.
      assert (ldap.ModType c ∈ map ldap.ModType (R ++ A ++ P)) as Hin.
      { apply list_elem_of_fmap. by exists c. }
      apply Hnames in Hin. by rewrite Heq in Hin.
Qed.

(** ** What the diff of two sets touches *)

Section SetDiffMore.
Implicit Types os ns : gmap string SetShaped.item.

Lemma lookup_Difference {A} (s other : gmap string A) code x :
  schema.Difference s other !! code = Some x
  <-> s !! code = Some x /\ other !! code = None.
Proof. unfold schema.Difference. by rewrite map_lookup_filter_Some. Qed.

Lemma lookup_Intersection {A} (s other : gmap string A) code x :
  schema.Intersection s other !! code = Some x
  <-> s !! code = Some x /\ is_Some (other !! code).
Proof. unfold schema.Intersection. by rewrite map_lookup_filter_Some. Qed.

Lemma elem_of_removedNames os ns name :
  name ∈ removedNames os ns
  <-> exists code v, os !! code = Some (name, v) /\ ns !! code = None.
Proof.
  unfold removedNames. rewrite elem_of_namesOf.
  setoid_rewrite elem_of_List. setoid_rewrite lookup_Difference.
  split; [intros (v & code & ?)|intros (code & v & ?)]; eauto.
Qed.

Lemma elem_of_addedNames os ns name :
  name ∈ addedNames os ns
  <-> exists code v, ns !! code = Some (name, v) /\ os !! code = None.
Proof.
  unfold addedNames. rewrite elem_of_namesOf.
  setoid_rewrite elem_of_List. setoid_rewrite lookup_Difference.
  split; [intros (v & code & ?)|intros (code & v & ?)]; eauto.
Qed.

Lemma elem_of_keptNames os ns name :
  name ∈ keptNames os ns
  <-> exists code v, ns !! code = Some (name, v) /\ is_Some (os !! code).
Proof.
  unfold keptNames. rewrite elem_of_namesOf.
  setoid_rewrite elem_of_List. setoid_rewrite lookup_Intersection.
  split; [intros (v & code & ?)|intros (code & v & ?)]; eauto.
Qed.

Lemma names_of_removals (l : list string) : map ldap.ModType (map Remove l) = l.
Proof. induction l as [|k l IH]; [done|]. simpl. by rewrite IH. Qed.

Lemma names_of_changes (h : string -> ldap.Change) (l : list string) :
  (forall k, ldap.ModType (h k) = k) -> map ldap.ModType (map h l) = l.
Proof. intros Hh. induction l as [|k l IH]; [done|]. simpl. by rewrite IH, Hh. Qed.

(** The names the set diff sends a change for. *)
Lemma set_delta_names t_rk t_ak t_ck modify os ns :
  exists deltas,
    SetShaped.computeAndAddDeltas t_rk t_ak t_ck modify os ns
    = (push modify deltas, None)
    /\ NoDup (map ldap.ModType deltas)
    /\ (forall name,
          name ∈ map ldap.ModType deltas
          <-> name ∈ removedNames os ns \/ name ∈ addedNames os ns).
Proof.
  eexists. split; [apply set_computeAndAddDeltas_changes|].
  rewrite !map_app, names_of_removals, !names_of_changes by done.
  split.
  - apply NoDup_app. split; [apply lone_NoDup|]. split.
    + intros name Hr Hap. apply elem_of_lone in Hr as (Hr & Hna & Hnk).
      apply elem_of_app in Hap as [Ha|Hc].
      * apply elem_of_lone in Ha as (Ha & _). done.
      * apply elem_of_util_List, elem_of_changedNames in Hc.
        destruct Hc as [[_ [?|?]]|[? _]]; done.
    + apply NoDup_app. split; [apply lone_NoDup|]. split; [|apply util_List_NoDup].
      intros name Ha Hc. apply elem_of_lone in Ha as (Ha & Hnr & Hnk).
      apply elem_of_util_List, elem_of_changedNames in Hc.
      destruct Hc as [[? _]|[_ [?|?]]]; done.
  - intros name. rewrite !elem_of_app, !elem_of_lone, elem_of_util_List.
    rewrite elem_of_changedNames.
    destruct (decide (name ∈ removedNames os ns)) as [Hr|Hr],
             (decide (name ∈ addedNames os ns)) as [Ha|Ha],
             (decide (name ∈ keptNames os ns)) as [Hk|Hk]; tauto.
Qed.

(** The set-shaped diff sends at most one change per name, and sends one
    for exactly the names of the entries whose hash code only one of the
    two sets holds. *)
Theorem set_diff_changes_each_touched_name_once :
  forall t_rk t_ak t_ck modify os ns,
  exists deltas,
    SetShaped.computeAndAddDeltas t_rk t_ak t_ck modify os ns
    = (push modify deltas, None)
    /\ NoDup (map ldap.ModType deltas)
    /\ (forall name,
          name ∈ map ldap.ModType deltas
          <-> exists code v,
                (os !! code = Some (name, v) /\ ns !! code = None)
                \/ (ns !! code = Some (name, v) /\ os !! code = None)).
Proof.
  intros. destruct (set_delta_names t_rk t_ak t_ck modify os ns)
    as (deltas & Hd & Hnd & Hn).
  exists deltas. split; [done|]. split; [done|].
  intros name. rewrite Hn, elem_of_removedNames, elem_of_addedNames.
  split.
  - intros [(code & v & ?)|(code & v & ?)]; exists code, v; tauto.
  - intros (code & v & [?|?]); [left|right]; eauto.
Qed.

Lemma push_inj modify l1 l2 : push modify l1 = push modify l2 -> l1 = l2.
Proof. unfold push. intros [= H]. by apply app_inv_head in H. Qed.

(** The set-shaped diff compares hash codes, not entries: it sends no
    change exactly when the two sets hold the same hash codes, also when
    the entries under a code differ. *)
Theorem set_diff_compares_hash_codes :
  forall t_rk t_ak t_ck modify os ns,
    SetShaped.computeAndAddDeltas t_rk t_ak t_ck modify os ns = (modify, None)
    <-> forall code, is_Some (os !! code) <-> is_Some (ns !! code).
Proof.
  intros. destruct (set_delta_names t_rk t_ak t_ck modify os ns)
    as (deltas & Hd & _ & Hn).
  rewrite Hd. split.
  - intros [= Hp]. rewrite <- (push_nil modify) in Hp at 2.
    apply push_inj in Hp. subst deltas.
    assert (forall name, (name ∉ removedNames os ns) /\ (name ∉ addedNames os ns)) as Hno.
    { intros name. split; intros Hin;
        (assert (name ∈ map ldap.ModType (@nil ldap.Change)) as Hc by (apply Hn; tauto));
        by apply elem_of_nil in Hc. }
    intros code. split; intros [[name v] Hx].
    + destruct (ns !! code) eqn:E; [done|].
      destruct (Hno name) as [Hr _]. exfalso. apply Hr.
      apply elem_of_removedNames. eauto.
    + destruct (os !! code) eqn:E; [done|].
      destruct (Hno name) as [_ Ha]. exfalso. apply Ha.
      apply elem_of_addedNames. eauto.
  - intros Hdom. rewrite (nil_of_no_elem deltas); [by rewrite push_nil|].
    intros c Hc.
    assert (ldap.ModType c ∈ map ldap.ModType deltas) as Hin.
    { apply list_elem_of_fmap. by exists c. }
    apply Hn in Hin as [Hr|Ha].
    + apply elem_of_removedNames in Hr as (code & v & Ho & Hnone).
      assert (is_Some (ns !! code)) as [? ?] by (apply Hdom; eauto). congruence.
    + apply elem_of_addedNames in Ha as (code & v & Hns & Hnone).
      assert (is_Some (os !! code)) as [? ?] by (apply Hdom; eauto). congruence.
Qed.

(** Every [Delete] of the set-shaped diff carries no value, and every
    [Add] and [Replace] carries the values the listing of the new set holds
    under its name, of which there is one or more. *)
Theorem set_diff_sends_no_empty_value_list :
  forall t_rk t_ak t_ck modify os ns,
  exists deltas,
    SetShaped.computeAndAddDeltas t_rk t_ak t_ck modify os ns
    = (push modify deltas, None)
    /\ forall c, c ∈ deltas ->
         match ldap.Op c with
         | ldap.DeleteAttribute => ldap.ModVals c = []
         | _ =>
           ldap.ModVals c = SetShaped.valuesOf (ldap.ModType c) (schema.List ns)
           /\ ldap.ModVals c <> []
         end.
Proof.
  intros. eexists. split; [apply set_computeAndAddDeltas_changes|].
  assert (forall name,
            name ∈ addedNames os ns \/ name ∈ keptNames os ns ->
            SetShaped.valuesOf name (schema.List ns) <> []) as Hvalues.
  { intros name Hin Hnil.
    assert (exists v, v ∈ SetShaped.valuesOf name (schema.List ns)) as [v Hv].
    { destruct Hin as [Ha|Hk].
      - apply elem_of_addedNames in Ha as (code & v & Hc & _).
        exists v. apply elem_of_allValues. eauto.
      - apply elem_of_keptNames in Hk as (code & v & Hc & _).
        exists v. apply elem_of_allValues. eauto. }
    rewrite Hnil in Hv. by apply elem_of_nil in Hv. }
  intros c. rewrite !elem_of_app, !list_elem_of_fmap.
  intros [(k & -> & _)|[(k & -> & Hk)|(k & -> & Hk)]]; simpl; [done| |].
  - split; [done|]. apply elem_of_lone in Hk as (Ha & _). apply Hvalues. tauto.
  - split; [done|]. apply elem_of_util_List, elem_of_changedNames in Hk.
    apply Hvalues. tauto.
Qed.

End SetDiffMore.

(** ** Reading *)

(** Reading is idempotent: against the same answers of the server, a
    second read returns what the first one returned. *)
Theorem read_is_idempotent :
  (forall d client updateState d' e,
      MapShaped.readLDAPObject d client updateState = Returns (d', e) ->
      MapShaped.readLDAPObject d' client updateState = Returns (d', e))
  /\ (forall Quote ChecksumIEEE d client updateState d' e,
      SetShaped.readLDAPObject Quote ChecksumIEEE d client updateState = Returns (d', e) ->
      SetShaped.readLDAPObject Quote ChecksumIEEE d' client updateState = Returns (d', e)).
Proof.
  split.
  - intros d client updateState d' e. unfold MapShaped.readLDAPObject.
    destruct (ldap.Search client (MapShaped.readRequest (MapShaped.dn (MapShaped.new d))))
      as [sr|err] eqn:Hs.
    + destruct (ldap.Entries sr) as [|entry rest] eqn:He; [done|].
      intros [= <- <-]. simpl. by rewrite Hs, He.
    + destruct err as [code|msg].
      * destruct ((code =? 32) && updateState) eqn:E; intros [= <- <-]; simpl;
          by rewrite Hs, E.
      * intros [= <- <-]. by rewrite Hs.
  - intros Quote ChecksumIEEE d client updateState d' e.
    unfold SetShaped.readLDAPObject.
    destruct (ldap.Search client (SetShaped.readRequest (SetShaped.dn (SetShaped.new d))))
      as [sr|err] eqn:Hs.
    + destruct (ldap.Entries sr) as [|entry rest] eqn:He; [done|].
      intros [= <- <-]. simpl. by rewrite Hs, He.
    + destruct err as [code|msg].
      * destruct ((code =? 32) && updateState) eqn:E; intros [= <- <-]; simpl;
          by rewrite Hs, E.
      * intros [= <- <-]. by rewrite Hs.
Qed.

Lemma read_is_idempotent_witness :
  exists d',
    MapShaped.readLDAPObject sample_map_data sample_server true = Returns (d', None)
    /\ MapShaped.readLDAPObject d' sample_server true = Returns (d', None).
Proof.
  destruct (map_readLDAPObject_found sample_map_data sample_server true
              {| ldap.Entries := [sample_entry] |} sample_entry [] eq_refl eq_refl)
    as (d' & Hd & _).
  exists d'. split; [exact Hd|].
  destruct read_is_idempotent as [Hm _]. exact (Hm _ _ _ _ _ Hd).
Defined.



(** ** Entries that share a hash code *)

Section FirstWins.
Context {A : Type}.
Variable F : A -> Z.

Lemma lookup_fold_Add_first l (s : gmap string A) code :
  fold_left (fun s item => schema.Add F item s) l s !! code
  = match s !! code with
    | Some y => Some y
    | None => first_under F code l
    end.
Proof.
  revert s. induction l as [|x l IH]; intros s; simpl.
  - by destruct (s !! code).
  - rewrite IH. unfold schema.Add.
    destruct (s !! schema.hash F x) as [z|] eqn:Hx.
    + destruct (s !! code) as [y|] eqn:Hc; [done|].
      rewrite bool_decide_eq_false_2; [done|]. congruence.
    + destruct (decide (schema.hash F x = code)) as [<-|Hne].
      * by rewrite lookup_insert_eq, Hx, bool_decide_eq_true_2.
      * rewrite lookup_insert_ne by done.
        by rewrite (bool_decide_eq_false_2 _ Hne).
Qed.

Lemma lookup_NewSet_first l code :
  schema.NewSet F l !! code = first_under F code l.
Proof. unfold schema.NewSet. by rewrite lookup_fold_Add_first, lookup_empty. Qed.

Lemma first_under_Some code l x :
  first_under F code l = Some x
  <-> schema.hash F x = code
      /\ exists l1 l2, l = l1 ++ x :: l2
           /\ forall y, y ∈ l1 -> schema.hash F y <> code.
Proof.
  unfold first_under. induction l as [|z l IH]; simpl.
  - split; [done|]. intros (_ & l1 & l2 & Hl & _). by destruct l1.
  - destruct (decide (schema.hash F z = code)) as [Hz|Hz].
    + rewrite (bool_decide_eq_true_2 _ Hz). split.
      * intros [= ->]. split; [done|]. exists [], l. split; [done|].
        by intros y ?%elem_of_nil.
      * intros (_ & l1 & l2 & Hl & Hy). destruct l1 as [|w l1].
        -- by injection Hl as ->.
        -- injection Hl as Hw _. exfalso. apply (Hy w); [left|by rewrite <- Hw].
    + rewrite (bool_decide_eq_false_2 _ Hz), IH. split.
      * intros (Hx & l1 & l2 & -> & Hy). split; [done|].
        exists (z :: l1), l2. split; [done|].
        intros y [->|?]%elem_of_cons; [done|by apply Hy].
      * intros (Hx & l1 & l2 & Hl & Hy). split; [done|].
        destruct l1 as [|w l1].
        -- injection Hl as Hw _. by rewrite Hw in Hz.
        -- injection Hl as _ Hl. exists l1, l2. split; [done|].
           intros y ?. apply Hy. by right.
Qed.

(** The set keeps, of the items added under one key, the first. *)
Lemma elem_of_List_NewSet_first l x :
  x ∈ schema.List (schema.NewSet F l)
  <-> exists l1 l2, l = l1 ++ x :: l2
        /\ forall y, y ∈ l1 -> schema.hash F y <> schema.hash F x.
Proof.
  rewrite elem_of_List. setoid_rewrite lookup_NewSet_first.
  setoid_rewrite first_under_Some. split.
  - intros (code & <- & ?). done.
  - intros ?. by exists (schema.hash F x).
Qed.

End FirstWins.

(** The set a read builds holds, for every hash code, the first of the
    entries the projection keeps under that code: an entry that follows
    another one with the same hash code is lost. *)
Theorem set_read_keeps_the_first_item_of_a_hash_code :
  forall Quote ChecksumIEEE d client updateState sr entry rest,
    ldap.Search client (SetShaped.readRequest (SetShaped.dn (SetShaped.new d)))
      = ldap.Ok sr ->
    ldap.Entries sr = entry :: rest ->
    exists d',
      SetShaped.readLDAPObject Quote ChecksumIEEE d client updateState
        = Returns (d', None)
      /\ forall x,
           x ∈ schema.List (SetShaped.attributes (SetShaped.new d'))
           <-> exists l1 l2,
                 keptItems (SetShaped.dn (SetShaped.new d)) (ldap.Entry.Attributes entry)
                   = l1 ++ x :: l2
                 /\ forall y, y ∈ l1 ->
                      schema.hash (SetShaped.attributeHash Quote ChecksumIEEE) y
                      <> schema.hash (SetShaped.attributeHash Quote ChecksumIEEE) x.
Proof.
  intros * Hs He.
  destruct (set_readLDAPObject_found Quote ChecksumIEEE d client updateState
              sr entry rest Hs He) as (d' & Hd & _ & Ha).
  exists d'. split; [done|]. intros x.
  rewrite Ha, set_readAttributes_NewSet. apply elem_of_List_NewSet_first.
Qed.

Lemma hash_collides : schema.hash sample_hash colliding_a = schema.hash sample_hash colliding_b.
Proof. vm_compute. reflexivity. Qed.

Lemma kept_colliding :
  keptItems sample_dn [ldap.NewEntryAttribute "mail" ["cugzhv"; "gozzh"]]
  = [colliding_a; colliding_b].
Proof. vm_compute. reflexivity. Qed.

Lemma set_read_collision_witness :
  sample_hash colliding_a = sample_hash colliding_b
  /\ exists d',
       SetShaped.readLDAPObject strconv.Quote crc32.ChecksumIEEE
         sample_set_data colliding_server true = Returns (d', None)
       /\ (colliding_a ∈ schema.List (SetShaped.attributes (SetShaped.new d')))
       /\ (colliding_b ∉ schema.List (SetShaped.attributes (SetShaped.new d'))).
Proof.
  split; [vm_compute; reflexivity|].
  destruct (set_read_keeps_the_first_item_of_a_hash_code
              strconv.Quote crc32.ChecksumIEEE sample_set_data colliding_server true
              {| ldap.Entries :=
                   [ldap.Entry.New sample_dn
                      [ldap.NewEntryAttribute "mail" ["cugzhv"; "gozzh"]]] |}
              (ldap.Entry.New sample_dn
                      [ldap.NewEntryAttribute "mail" ["cugzhv"; "gozzh"]]) []
              eq_refl eq_refl) as (d' & Hd & Hx).
  exists d'. split; [exact Hd|].
  change (SetShaped.dn (SetShaped.new sample_set_data)) with sample_dn in Hx.
  change (ldap.Entry.Attributes _) with [ldap.NewEntryAttribute "mail" ["cugzhv"; "gozzh"]] in Hx.
  rewrite kept_colliding in Hx.
  split.
  - apply Hx. exists [], [colliding_b]. split; [reflexivity|].
    intros y Hy. inversion Hy.
  - intros Hin. apply Hx in Hin as (l1 & l2 & Hl & Hy).
    destruct l1 as [|w [|w' l1]].
    + discriminate Hl.
    + injection Hl as <- _. apply (Hy colliding_a); [left|exact hash_collides].
    + injection Hl as _ _ Hl. destruct l1; discriminate Hl.
Defined.

Lemma set_diff_collision_witness :
  colliding_a <> colliding_b
  /\ SetShaped.computeAndAddDeltas in_order in_order in_order
       (ldap.ModifyRequest.New sample_dn)
       (schema.NewSet sample_hash [colliding_a]) (schema.NewSet sample_hash [colliding_b])
     = (ldap.ModifyRequest.New sample_dn, None).
Proof.
  split; [discriminate|].
  apply set_diff_compares_hash_codes. intros code.
  rewrite !NewSet_singleton. rewrite <- hash_collides.
  rewrite !lookup_singleton_is_Some. done.
Defined.

(** ** The hash of an attribute *)

Lemma lxor_uint32 a b : uint32 a -> uint32 b -> uint32 (Z.lxor a b).
Proof.
  unfold uint32. intros [Ha Ha'] [Hb Hb']. split; [by apply Z.lxor_nonneg|].
  destruct (Z.eq_dec (Z.lxor a b) 0) as [->|Hne]; [done|].
  assert (0 <= Z.lxor a b) as Hnn by (by apply Z.lxor_nonneg).
  apply Z.log2_lt_pow2; [lia|].
  pose proof (Z.log2_lxor a b Ha Hb) as Hlog.
  assert (Z.log2 a < 32) as Hla.
  { destruct (Z.eq_dec a 0) as [->|]; [done|]. apply Z.log2_lt_pow2; lia. }
  assert (Z.log2 b < 32) as Hlb.
  { destruct (Z.eq_dec b 0) as [->|]; [done|]. apply Z.log2_lt_pow2; lia. }
  lia.
Qed.

Lemma shift_uint32 crc : uint32 crc -> uint32 (crc32.shift crc).
Proof.
  intros Hc. assert (uint32 (Z.shiftr crc 1)) as Hs.
  { unfold uint32 in *. rewrite Z.shiftr_div_pow2 by lia.
    change (2 ^ 1) with 2. split; [apply Z.div_pos; lia|].
    apply Z.div_lt_upper_bound; lia. }
  unfold crc32.shift. destruct (Z.testbit crc 0); [|done].
  apply lxor_uint32; [done|]. unfold uint32. lia.
Qed.

Lemma byte_val_range c : 0 <= byte_val c < 256.
Proof.
  unfold byte_val. pose proof (N_ascii_bounded c) as H. lia.
Qed.

Lemma update_uint32 crc c : uint32 crc -> uint32 (crc32.update crc c).
Proof.
  intros Hc. unfold crc32.update.
  assert (uint32 (Z.lxor crc (byte_val c))) as H.
  { apply lxor_uint32; [done|]. pose proof (byte_val_range c). unfold uint32. lia. }
  simpl. by do 8 apply shift_uint32.
Qed.

Lemma update_all_uint32 data crc : uint32 crc -> uint32 (crc32.update_all crc data).
Proof.
  revert crc. induction data as [|c t IH]; intros crc Hc; simpl; [done|].
  by apply IH, update_uint32.
Qed.

Lemma ChecksumIEEE_uint32 data : uint32 (crc32.ChecksumIEEE data).
Proof.
  unfold crc32.ChecksumIEEE. apply lxor_uint32.
  - apply update_all_uint32. unfold uint32. lia.
  - unfold uint32. lia.
Qed.

(** With [int] 64 bits wide, [attributeHash] is the checksum of its text:
    it lies between 0 and 2^32 - 1, its two branches for a negative value
    are never taken, and the key of an entry in the set is the checksum
    in decimal. *)
Theorem attributeHash_is_the_checksum :
  (forall Quote name value,
      SetShaped.attributeHash Quote crc32.ChecksumIEEE (name, value)
      = crc32.ChecksumIEEE (attributeText Quote name value)
      /\ 0 <= SetShaped.attributeHash Quote crc32.ChecksumIEEE (name, value) < 2 ^ 32
      /\ schema.hash (SetShaped.attributeHash Quote crc32.ChecksumIEEE) (name, value)
         = pretty (SetShaped.attributeHash Quote crc32.ChecksumIEEE (name, value)))
  /\ (forall values,
      0 <= MapShaped.attributeHash crc32.ChecksumIEEE values < 2 ^ 32).
Proof.
  split.
  - intros Quote name value.
    pose proof (ChecksumIEEE_uint32
                  (attributeText Quote name value))
      as Hr.
    assert (SetShaped.attributeHash Quote crc32.ChecksumIEEE (name, value)
            = crc32.ChecksumIEEE
                (attributeText Quote name value))
      as Heq.
    { unfold SetShaped.attributeHash. cbv zeta. fold (attributeText Quote name value).
      destruct (Z.geb_spec (crc32.ChecksumIEEE
                  (attributeText Quote name value)) 0)
        as [|Hlt]; [done|].
      unfold uint32 in Hr. lia. }
    split; [done|]. split; [by rewrite Heq|].
    unfold schema.hash. cbv zeta. rewrite Heq.
    destruct (Z.ltb_spec (crc32.ChecksumIEEE
                (attributeText Quote name value)) 0)
      as [Hlt|]; [|done].
    unfold uint32 in Hr. lia.
  - intros values. unfold MapShaped.attributeHash. cbv zeta.
    set (buffer := fold_left _ _ _ +:+ "}").
    pose proof (ChecksumIEEE_uint32 buffer) as Hr.
    destruct (Z.geb_spec (crc32.ChecksumIEEE buffer) 0); [done|].
    unfold uint32 in Hr. lia.
Qed.

(** The text the list version of [attributeHash] hashes does not separate
    its values: a value that holds a comma and a line feed hashes as the
    two values around them. *)
Theorem list_hash_does_not_separate_values :
  forall ChecksumIEEE before a b after,
    MapShaped.attributeHash ChecksumIEEE
      (before ++ [a +:+ "," +:+ String "010" EmptyString +:+ b] ++ after)
    = MapShaped.attributeHash ChecksumIEEE (before ++ [a; b] ++ after).
Proof.
  intros. unfold MapShaped.attributeHash. cbv zeta.
  rewrite !fold_left_app. simpl.
  by rewrite !append_assoc.
Qed.

(** ** The password of Active Directory *)

Lemma length_append (a b : string) :
  String.length (a +:+ b) = (String.length a + String.length b)%nat.
Proof. induction a as [|x a IH]; [done|]. simpl. by rewrite IH. Qed.

Lemma units_ascii c t :
  (byte_val c <? utf8.RuneSelf) = true ->
  encoding_unicode.units_from 0 (String c t)
  = String "000" (String c (encoding_unicode.units_from 0 t)).
Proof.
  destruct c as [b0 b1 b2 b3 b4 b5 b6 b7].
  destruct b7; [by destruct b0, b1, b2, b3, b4, b5, b6|].
  intros _. destruct b0, b1, b2, b3, b4, b5, b6; reflexivity.
Qed.

Lemma Transform_ascii s :
  asciiOnly s = true ->
  encoding_unicode.Transform encoding_unicode.LittleEndian s = widen s.
Proof.
  unfold encoding_unicode.Transform. induction s as [|c t IH]; [done|].
  simpl asciiOnly. intros [Hc Ht]%andb_true_iff.
  rewrite units_ascii by done. simpl. by rewrite IH.
Qed.

Lemma asciiOnly_app a b : asciiOnly (a +:+ b) = asciiOnly a && asciiOnly b.
Proof. induction a as [|x a IH]; [done|]. simpl. by rewrite IH, andb_assoc. Qed.

Lemma length_widen s : String.length (widen s) = (2 * String.length s)%nat.
Proof. induction s as [|c t IH]; [done|]. simpl. rewrite IH. lia. Qed.

Lemma units_even s k :
  Nat.even (String.length (encoding_unicode.units_from k s)) = true.
Proof.
  revert k. induction s as [|c t IH]; intros k; [done|].
  destruct k as [|k]; [|apply IH].
  cbn [encoding_unicode.units_from].
  destruct (if byte_val c <? utf8.RuneSelf then (byte_val c, 1%nat)
            else utf8.DecodeRuneInString (String c t)) as [r size].
  rewrite length_append.
  destruct (r <=? 0xFFFF).
  - simpl. apply IH.
  - destruct (utf16.EncodeRune r) as [r1 r2]. simpl. apply IH.
Qed.

Lemma swap_pairs_length_upto n s :
  (String.length s <= n)%nat ->
  String.length (encoding_unicode.swap_pairs s) = String.length s.
Proof.
  revert s. induction n as [n IH] using lt_wf_ind. intros s Hn.
  destruct s as [|a [|b t]]; [done|done|].
  simpl. rewrite (IH (String.length t)); [done| |done]. simpl in Hn. lia.
Qed.

Lemma swap_pairs_length s :
  String.length (encoding_unicode.swap_pairs s) = String.length s.
Proof. by apply (swap_pairs_length_upto (String.length s)). Qed.

(** [toAttributeValue] leaves the value of every attribute but
    [unicodePwd] as it is.  For [unicodePwd] it returns an even number of
    bytes, and for a value of ASCII text the value between double quotes in
    UTF-16, little-endian: every byte followed by a zero byte. *)
Theorem toAttributeValue_encodes_only_unicodePwd :
  (forall name value, name <> "unicodePwd" ->
      MapShaped.toAttributeValue name value = value)
  /\ (forall value,
      Nat.even (String.length (MapShaped.toAttributeValue "unicodePwd" value)) = true)
  /\ (forall value, asciiOnly value = true ->
      MapShaped.toAttributeValue "unicodePwd" value = widen (quoted value)
      /\ String.length (MapShaped.toAttributeValue "unicodePwd" value)
         = (2 * (String.length value + 2))%nat).
Proof.
  split; [|split].
  - intros name value Hne. unfold MapShaped.toAttributeValue.
    destruct (String.eqb_spec name "unicodePwd"); done.
  - intros value. unfold MapShaped.toAttributeValue. cbn [String.eqb Ascii.eqb Bool.eqb].
    cbv zeta. unfold encoding_unicode.Encoder_String, encoding_unicode.Transform.
    rewrite swap_pairs_length. apply units_even.
  - intros value Ha.
    assert (MapShaped.toAttributeValue "unicodePwd" value = widen (quoted value)) as Heq.
    { unfold MapShaped.toAttributeValue. cbn [String.eqb Ascii.eqb Bool.eqb].
      cbv zeta. unfold encoding_unicode.Encoder_String.
      change (String json.dquote EmptyString +:+ value +:+ String json.dquote EmptyString)
        with (quoted value).
      apply Transform_ascii. unfold quoted. simpl. by rewrite asciiOnly_app, Ha. }
    split; [done|]. rewrite Heq, length_widen. unfold quoted. simpl.
    rewrite length_append. simpl. lia.
Qed.

Lemma toAttributeValue_witness :
  MapShaped.toAttributeValue "userPassword" "Secret1" = "Secret1"
  /\ MapShaped.toAttributeValue "unicodePwd" "Ab1"
     = String json.dquote (String "000" ("A" +:+ String "000" ("b" +:+ String "000"
         ("1" +:+ String "000" (String json.dquote (String "000" EmptyString)))))).
Proof.
  destruct toAttributeValue_encodes_only_unicodePwd as (Hother & _ & Hpwd). split.
  - by apply Hother.
  - by apply Hpwd.
Defined.

(** ** The declared strings that decode to no value *)

Lemma decode_grows s : forall st acc cur r,
  json.decode st acc cur s = Some r ->
  (length acc <= length r)%nat
  /\ (mustRead st = true -> (length acc < length r)%nat).
Proof.
  induction s as [|c t IH]; intros st acc cur r H.
  - destruct st; simpl in H; try discriminate. injection H as <-. simpl. split; [lia|done].
  - cbn [json.decode] in H. cbv zeta in H.
    destruct st as [|k| | |[|k]|k| |]; simpl mustRead;
      repeat match type of H with
             | None = Some _ => discriminate H
             | (if ?b then _ else _) = Some _ => destruct b
             | (match ?x with _ => _ end) = Some _ => destruct x
             | (let '(_, _) := ?x in _) = Some _ => destruct x
             end;
      try discriminate H;
      apply IH in H; simpl in H; rewrite ?length_app in H; simpl in H;
      destruct H as [H1 H2]; split; try lia; intros _; try lia;
      try (apply H2; reflexivity).
Qed.

Lemma decode_EndTop s acc cur r :
  json.decode json.EndTop acc cur s = Some r <-> jsonSpaces s = true /\ r = acc.
Proof.
  induction s as [|c t IH]; simpl.
  - split; [by intros [= <-]|by intros [_ ->]].
  - destruct (json.isSpace (byte_val c)); simpl; [done|].
    split; [done|by intros [? _]].
Qed.

Lemma decode_spaces st a t acc cur :
  (st = json.BeginTop \/ st = json.BeginValueOrEmpty) ->
  jsonSpaces a = true ->
  json.decode st acc cur (a +:+ t) = json.decode st acc cur t.
Proof.
  intros Hst. induction a as [|c a IH]; [done|].
  simpl jsonSpaces. intros [Hc Ha]%andb_true_iff.
  rewrite append_cons. destruct Hst as [-> | ->]; cbn [json.decode]; cbv zeta;
    rewrite Hc; by apply IH.
Qed.

Lemma isc_true c x : json.isc c (byte_val x) = true -> x = c.
Proof.
  unfold json.isc, byte_val. intros H%Z.eqb_eq%N2Z.inj.
  apply (f_equal ascii_of_N) in H. by rewrite !ascii_N_embedding in H.
Qed.

(** The empty array: a closing bracket after white space, white space
    after it. *)
Lemma decode_empty_array s cur :
  json.decode json.BeginValueOrEmpty [] cur s = Some []
  <-> exists b c, jsonSpaces b = true /\ jsonSpaces c = true
        /\ s = b +:+ "]" +:+ c.
Proof.
  split.
  - induction s as [|x t IH]; [done|].
    cbn [json.decode]. cbv zeta.
    destruct (json.isSpace (byte_val x)) eqn:Hx.
    { intros H. destruct (IH H) as (b & c & Hb & Hc & ->).
      exists (String x b), c. simpl. by rewrite Hx, Hb. }
    destruct (json.isc "]" (byte_val x)) eqn:Hclose.
    { intros H. apply decode_EndTop in H as [Hs _].
      exists EmptyString, t. split; [done|]. split; [done|].
      by rewrite (isc_true _ _ Hclose). }
    destruct (json.isc json.dquote (byte_val x)).
    { intros H. apply decode_grows in H as [_ H]. simpl in H.
      specialize (H eq_refl). lia. }
    destruct (json.isc "n" (byte_val x)); [|done].
    intros H. apply decode_grows in H as [_ H]. simpl in H.
    specialize (H eq_refl). lia.
  - intros (b & c & Hb & Hc & ->).
    rewrite decode_spaces by auto. rewrite append_cons, append_nil.
    cbn [json.decode]. cbv zeta. apply decode_EndTop. done.
Qed.

Lemma DecodeRune_ascii c t :
  (byte_val c <? utf8.RuneSelf) = true ->
  utf8.DecodeRuneInString (String c t) = (byte_val c, 1%nat).
Proof.
  intros H. unfold utf8.DecodeRuneInString, utf8.size_of.
  change utf8.RuneSelf with 0x80 in H. by rewrite H.
Qed.

Lemma isSpace_IsSpace b :
  json.isSpace b = true -> (b <? utf8.RuneSelf) = true /\ unicode.IsSpace b = true.
Proof.
  unfold json.isSpace, json.isc.
  intros [[[H|H]%orb_true_iff|H]%orb_true_iff|H]%orb_true_iff;
    apply Z.eqb_eq in H; subst b; done.
Qed.

Lemma TrimLeftFunc_spaces a c t :
  jsonSpaces a = true ->
  (byte_val c <? utf8.RuneSelf) = true ->
  unicode.IsSpace (byte_val c) = false ->
  Strings.TrimLeftFunc (a +:+ String c t) unicode.IsSpace = String c t.
Proof.
  intros Ha Hc Hn. unfold Strings.TrimLeftFunc.
  induction a as [|x a IH].
  - rewrite append_nil. cbn [Strings.TrimLeftFunc_from].
    by rewrite DecodeRune_ascii, Hn.
  - simpl in Ha. apply andb_true_iff in Ha as [Hx Ha].
    apply isSpace_IsSpace in Hx as [Hx Hs].
    rewrite append_cons. cbn [Strings.TrimLeftFunc_from].
    rewrite DecodeRune_ascii, Hs by done. simpl. by apply IH.
Qed.

Lemma split_spaces s :
  exists a rest,
    jsonSpaces a = true /\ s = a +:+ rest
    /\ match rest with
       | EmptyString => True
       | String c _ => json.isSpace (byte_val c) = false
       end.
Proof.
  induction s as [|x s (a & rest & Ha & -> & Hr)].
  - by exists EmptyString, EmptyString.
  - destruct (json.isSpace (byte_val x)) eqn:Hx.
    + exists (String x a), rest. simpl. by rewrite Hx, Ha.
    + by exists EmptyString, (String x (a +:+ rest)).
Qed.

(** [maybeJSONStringToArray] returns no value exactly for the empty JSON
    array: an opening and a closing bracket with nothing but the white
    space of JSON (space, tab, line feed, carriage return) before, between
    and after them.  These are the declared strings for which the map
    diff sends an [Add] or a [Replace] without values. *)
Theorem maybeJSONStringToArray_is_empty_only_on_an_empty_array :
  forall raw,
    MapShaped.maybeJSONStringToArray raw = []
    <-> exists a b c,
          jsonSpaces a = true /\ jsonSpaces b = true /\ jsonSpaces c = true
          /\ raw = a +:+ "[" +:+ b +:+ "]" +:+ c.
Proof.
  intros raw. split.
  - unfold MapShaped.maybeJSONStringToArray.
    destruct (Strings.HasPrefix (Strings.TrimSpace raw) "[") eqn:Hp; [|done].
    destruct (json.Unmarshal raw) as [ret|] eqn:Hu; [|done].
    intros ->. destruct (split_spaces raw) as (a & rest & Ha & -> & Hr).
    unfold json.Unmarshal in Hu. rewrite decode_spaces in Hu by auto.
    destruct rest as [|x t]; [done|].
    cbn [json.decode] in Hu. cbv zeta in Hu. rewrite Hr in Hu.
    destruct (json.isc "[" (byte_val x)) eqn:Hopen.
    + apply isc_true in Hopen as ->.
      apply decode_empty_array in Hu as (b & c & Hb & Hc & ->).
      by exists a, b, c.
    + destruct (json.isc "n" (byte_val x)) eqn:Hnull; [|done].
      apply isc_true in Hnull as ->.
      rewrite TrimSpace_bracket, TrimLeftFunc_spaces in Hp by done. done.
  - intros (a & b & c & Ha & Hb & Hc & ->).
    unfold MapShaped.maybeJSONStringToArray.
    rewrite (append_cons "[" EmptyString), append_nil.
    rewrite TrimSpace_bracket, TrimLeftFunc_spaces by done.
    rewrite HasPrefix_bracket, bool_decide_eq_true_2 by done.
    unfold json.Unmarshal. rewrite decode_spaces by auto.
    cbn [json.decode]. cbv zeta.
    change (json.isSpace (byte_val "[")) with false.
    change (json.isc "[" (byte_val "[")) with true. cbv iota.
    assert (json.decode json.BeginValueOrEmpty [] EmptyString (b +:+ "]" +:+ c)
            = Some []) as ->; [|done].
    apply decode_empty_array. by exists b, c.
Qed.

(** ** UTF-8: decoding a rune and encoding it again *)

















(** ** The JSON encoding of well-formed text *)

















(** ** The order of the listing of a set *)

Lemma Ascii_compare_spec (x y : ascii) :
  CompareSpec (x = y) (N_of_ascii x < N_of_ascii y)%N (N_of_ascii y < N_of_ascii x)%N
    (Ascii.compare x y).
Proof.
  unfold Ascii.compare. destruct (N.compare_spec (N_of_ascii x) (N_of_ascii y)) as [H|H|H];
    constructor; [|done|done].
  apply (f_equal ascii_of_N) in H. by rewrite !ascii_N_embedding in H.
Qed.

Lemma String_leb_trans (a b c : string) :
  String.leb a b = true -> String.leb b c = true -> String.leb a c = true.
Proof.
  unfold String.leb. revert b c. induction a as [|x a IH]; intros [|y b] [|z c]; simpl; try done.
  destruct (Ascii_compare_spec x y) as [->|Hxy|Hxy]; [| |done].
  - destruct (Ascii_compare_spec y z) as [->|Hyz|Hyz]; [|done|done]. apply IH.
  - intros _. destruct (Ascii_compare_spec y z) as [->|Hyz|Hyz]; [| |done].
    + destruct (Ascii_compare_spec x z) as [->|H|H]; [lia|done|lia].
    + destruct (Ascii_compare_spec x z) as [->|H|H]; [lia|done|lia].
Qed.

#[global] Instance code_le_trans : Transitive schema.code_le.
Proof. intros a b c. apply String_leb_trans. Qed.

#[global] Instance code_le_total : Total schema.code_le.
Proof. intros a b. apply String.leb_total. Qed.







(** ** The round trip of the declared attributes *)




